(** * Aviary shared libraries: authorizer, path normalisation, health check

    A shallow embedding of [auth/src/authorize.ts],
    [auth/src/path-normalization.ts] and [health/src/health-handler.ts],
    with the properties the specification states about them and further
    properties read off the code.

    JavaScript strings are sequences of UTF-16 code units.  They are modelled
    as [list N], one number per code unit, so that [String.prototype.trim],
    [startsWith], [substring] and the [\d] class of the version regex have
    exactly the meaning they have in the source.  [js] turns an ASCII literal
    into such a string. *)

From Stdlib Require Import NArith ZArith List String Ascii Bool Lia.
From stdpp Require Import base tactics option list countable gmap.

Local Open Scope N_scope.
Local Open Scope list_scope.

(** ** JavaScript strings *)

Abbreviation jsstring := (list N).

Definition js (s : string) : jsstring :=
  List.map N_of_ascii (list_ascii_of_string s).

Module JsString.

(** [s.startsWith(p)] *)
Fixpoint startsWith (s p : jsstring) {struct p} : bool :=
  match p with
  | [] => true
  | c :: p' =>
      match s with
      | [] => false
      | d :: s' => (c =? d) && startsWith s' p'
      end
  end.

(** [s.substring(n)] with a single argument that is never negative here. *)
Definition substring (s : jsstring) (n : nat) : jsstring := drop n s.

(** [!s] for a string: only the empty string is falsy. *)
Definition is_empty (s : jsstring) : bool :=
  match s with [] => true | _ :: _ => false end.

(** [a === b] on strings. *)
Definition str_eqb (a b : jsstring) : bool := bool_decide (a = b).

(** ECMAScript WhiteSpace and LineTerminator code points, the set that
    [String.prototype.trim] removes.  All of them lie in the basic plane,
    so each is a single code unit. *)
Definition isWhiteSpace (c : N) : bool :=
  (c =? 9) || (c =? 10) || (c =? 11) || (c =? 12) || (c =? 13) ||
  (c =? 32) || (c =? 160) || (c =? 5760) ||
  ((8192 <=? c) && (c <=? 8202)) ||
  (c =? 8232) || (c =? 8233) || (c =? 8239) || (c =? 8287) ||
  (c =? 12288) || (c =? 65279).

Fixpoint trimStart (s : jsstring) : jsstring :=
  match s with
  | [] => []
  | c :: s' => if isWhiteSpace c then trimStart s' else s
  end.

(** Removes trailing white space: a character is dropped when everything
    after it has been dropped and it is white space itself. *)
Fixpoint trimEnd (s : jsstring) : jsstring :=
  match s with
  | [] => []
  | c :: s' =>
      match trimEnd s' with
      | [] => if isWhiteSpace c then [] else [c]
      | t => c :: t
      end
  end.

(** [s.trim()] *)
Definition trim (s : jsstring) : jsstring := trimEnd (trimStart s).

(** [\d] without the unicode flag: the ten ASCII digits. *)
Definition isDigit (c : N) : bool := (48 <=? c) && (c <=? 57).

Fixpoint takeDigits (s : jsstring) : jsstring :=
  match s with
  | c :: s' => if isDigit c then c :: takeDigits s' else []
  | [] => []
  end.

Fixpoint dropDigits (s : jsstring) : jsstring :=
  match s with
  | c :: s' => if isDigit c then dropDigits s' else s
  | [] => []
  end.

End JsString.

(** ** auth/src/path-normalization.ts *)

Module PathNormalization.
Import JsString.

(** [rawPath.startsWith('/') ? rawPath : `/${rawPath}`] *)
Definition withLeadingSlash (rawPath : jsstring) : jsstring :=
  if startsWith rawPath (js "/") then rawPath else js "/" ++ rawPath.

Definition normalizeApiPath (rawPath servicePrefix : jsstring) : jsstring :=
  if is_empty rawPath then js "/"
  else if is_empty servicePrefix then
    (if startsWith rawPath (js "/") then rawPath else js "/" ++ rawPath)
  else
    let path :=
      if startsWith rawPath (js "/") then rawPath else js "/" ++ rawPath in
    let prefixPattern := js "/" ++ servicePrefix in
    if str_eqb path prefixPattern
       || startsWith path (prefixPattern ++ js "/")
    then
      let withoutPrefix := substring path (length prefixPattern) in
      if is_empty withoutPrefix then js "/" else withoutPrefix
    else path.

(** The match of [/^\/v(\d+)\//] against the path, as its first capture
    group: the literal [/v] at index 0, the longest run of digits (the
    quantifier is greedy, and no shorter run can be followed by [/]), at
    least one of them, then a [/]. *)
Definition matchVersion (normalizedPath : jsstring) : option jsstring :=
  if startsWith normalizedPath (js "/v") then
    let rest := substring normalizedPath 2 in
    let digits := takeDigits rest in
    if negb (is_empty digits) && startsWith (dropDigits rest) (js "/")
    then Some digits
    else None
  else None.

Definition extractApiVersion (normalizedPath : jsstring) : option jsstring :=
  match matchVersion normalizedPath with
  | Some group1 => Some (js "v" ++ group1)
  | None => None
  end.

(** [expectedVersion] is [None] when the caller leaves the argument out;
    the default parameter value ['v1'] is then used. *)
Definition isValidApiVersion
    (normalizedPath : jsstring) (expectedVersion : option jsstring) : bool :=
  let expectedVersion := default (js "v1") expectedVersion in
  let version := extractApiVersion normalizedPath in
  match version with
  | None => true
  | Some v => str_eqb v expectedVersion
  end.

(** [path === prefixPattern || path.startsWith(`${prefixPattern}/`)], the
    test that decides whether [path] loses its first segment. *)
Definition carriesPrefix (path servicePrefix : jsstring) : bool :=
  let prefixPattern := js "/" ++ servicePrefix in
  str_eqb path prefixPattern || startsWith path (prefixPattern ++ js "/").

(** The path, once it has its leading slash, begins with the prefix segment
    twice in a row. *)
Definition repeatsPrefix (rawPath servicePrefix : jsstring) : bool :=
  negb (is_empty servicePrefix) &&
  carriesPrefix (withLeadingSlash rawPath)
                (servicePrefix ++ js "/" ++ servicePrefix).

(** The five ways through [normalizeApiPath]. *)
Inductive normalize_case (p s : jsstring) : jsstring -> Prop :=
| case_empty_path :
    p = [] -> normalize_case p s (js "/")
| case_no_prefix :
    p <> [] -> s = [] -> normalize_case p s (withLeadingSlash p)
| case_exact :
    p <> [] -> s <> [] -> withLeadingSlash p = js "/" ++ s ->
    normalize_case p s (js "/")
| case_segment rest :
    p <> [] -> s <> [] -> withLeadingSlash p = js "/" ++ s ++ js "/" ++ rest ->
    normalize_case p s (js "/" ++ rest)
| case_other :
    p <> [] -> s <> [] -> withLeadingSlash p <> js "/" ++ s ->
    (forall rest, withLeadingSlash p <> js "/" ++ s ++ js "/" ++ rest) ->
    normalize_case p s (withLeadingSlash p).

End PathNormalization.

(** ** auth/src/authorize.ts *)

Module Authorize.
Import JsString.

(** *** Exceptions and promises

    Both functions of the file are [async]: a call yields a promise that
    either resolves to a value or rejects with an error.  [outcome] is that
    final state; a [throw] inside the body is a rejection.  The two
    [console.error] calls only write to the log and are left out. *)

Inductive exn : Type :=
| TypeError
| SyntaxError
| ServiceError (name : jsstring).

Inductive outcome (A : Type) : Type :=
| Returns (a : A)
| Throws (e : exn).
Arguments Returns {A} a.
Arguments Throws {A} e.

#[export] Instance outcome_ret : MRet outcome := fun A a => Returns a.
#[export] Instance outcome_bind : MBind outcome := fun A B f m =>
  match m with
  | Returns a => f a
  | Throws e => Throws e
  end.

(** [try { body } catch (error) { handler }] *)
Definition try_catch {A} (body : outcome A) (handler : exn -> outcome A)
  : outcome A :=
  match body with
  | Returns a => Returns a
  | Throws e => handler e
  end.

(** *** Values

    What [JSON.parse] can produce, and what reading a member of such a
    value can produce ([undefined], or an inherited method).  A number is
    kept as an integer: the code only asks whether it is falsy, and of the
    numbers [JSON.parse] produces only zero is. *)
#[warnings="-register-all"]
Inductive value : Type :=
| VUndefined
| VNull
| VBool (b : bool)
| VNumber (n : Z)
| VString (s : jsstring)
| VArray (items : list value)
| VObject (props : list (jsstring * value))
| VFunction.

(** ToBoolean *)
Definition truthy (v : value) : bool :=
  match v with
  | VUndefined | VNull => false
  | VBool b => b
  | VNumber n => negb (n =? 0)%Z
  | VString s => negb (is_empty s)
  | VArray _ | VObject _ | VFunction => true
  end.

(** [s === v] where [s] is a string. *)
Definition strict_eq_string (s : jsstring) (v : value) : bool :=
  match v with
  | VString t => str_eqb s t
  | _ => false
  end.

Fixpoint own_property (props : list (jsstring * value)) (key : jsstring)
  : option value :=
  match props with
  | [] => None
  | (k, v) :: props' => if str_eqb k key then Some v else own_property props' key
  end.

(** *** AuthResult *)

Inductive AuthMethod : Type :=
| shared_key   (* 'shared-key' *)
| none.        (* 'none' *)

Record AuthResult : Type := {
  authorized : bool;
  method : AuthMethod
}.

(** *** The request

    [headers] is [None] when the event carries no header object (the code
    reads it through [?.]); a name bound to [undefined] reads like a name
    that is absent.  [apiKeyId] is [requestContext.identity.apiKeyId]. *)
Record APIGatewayProxyEvent : Type := {
  headers : option (gmap (list N) (list N));
  apiKeyId : option jsstring
}.

Record Options : Type := {
  sharedKeyName : option jsstring
}.

(** [event.headers?.[name]] *)
Definition header (event : APIGatewayProxyEvent) (name : jsstring)
  : option jsstring :=
  match headers event with
  | Some h => h !! name
  | None => None
  end.

(** [a || b] where both sides are [string | undefined]. *)
Definition or_else (a b : option jsstring) : option jsstring :=
  match a with
  | Some s => if is_empty s then b else a
  | None => b
  end.

(** [const { sharedKeyName = 'AVIARY_SHARED_API_KEY' } = options || {}] *)
Definition keyNameOf (options : option Options) : jsstring :=
  match options with
  | Some o => default (js "AVIARY_SHARED_API_KEY") (sharedKeyName o)
  | None => js "AVIARY_SHARED_API_KEY"
  end.

Record GetSecretValueResponse : Type := {
  SecretString : option jsstring
}.

Section WithSecretsManager.

(** [secretsClient.send(new GetSecretValueCommand({ SecretId }))]: the
    secret store, which answers or fails as it pleases. *)
Variable send : jsstring -> outcome GetSecretValueResponse.

(** [JSON.parse], which throws a [SyntaxError] on malformed text. *)
Variable JSON_parse : jsstring -> outcome value.

(** What a member read yields when the value has no own data property of
    that name: an inherited member of the built-in prototypes, an index
    or [length] of a string or array, or [undefined]. *)
Variable builtin_member : value -> jsstring -> value.

(** [v[key]] *)
Definition member (v : value) (key : jsstring) : outcome value :=
  match v with
  | VUndefined | VNull => Throws TypeError
  | VObject props =>
      match own_property props key with
      | Some x => Returns x
      | None => Returns (builtin_member v key)
      end
  | _ => Returns (builtin_member v key)
  end.

Definition getSecretValue (secretPath key : jsstring) : outcome value :=
  try_catch
    (response ← send secretPath;
     match SecretString response with
     | None => Returns VNull
     | Some secretString =>
         if is_empty secretString then Returns VNull
         else
           secrets ← JSON_parse secretString;
           v ← member secrets key;
           Returns (if truthy v then v else VNull)
     end)
    (fun error => Returns VNull).

End WithSecretsManager.

Section WithLookup.

(** The function the body awaits inside its [try]: [getSecretValue] in the
    source.  It is a parameter here so that the [catch] of the body can be
    exercised by a lookup that throws. *)
Variable lookup : jsstring -> jsstring -> outcome value.

(** The body of [authorizeRequest]. *)
Definition authorizeRequestWith
    (event : APIGatewayProxyEvent) (secretPath : jsstring)
    (options : option Options) : outcome AuthResult :=
  let sharedKeyName := keyNameOf options in
  let sharedKey :=
    or_else (header event (js "X-API-Key")) (header event (js "x-api-key")) in
  match sharedKey with
  | None => Returns {| authorized := false; method := none |}
  | Some sharedKey =>
      if is_empty sharedKey
      then Returns {| authorized := false; method := none |}
      else
        let trimmedKey := trim sharedKey in
        if is_empty trimmedKey
        then Returns {| authorized := false; method := none |}
        else
          (* [Some r]: the [try] block returned [r]; [None]: it ran to
             its end and control reaches the last [return]. *)
          r ← try_catch
                (expectedKey ← lookup secretPath sharedKeyName;
                 if truthy expectedKey && strict_eq_string trimmedKey expectedKey
                 then Returns (Some {| authorized := true; method := shared_key |})
                 else Returns None)
                (fun error =>
                   Returns (Some {| authorized := false; method := none |}));
          match r with
          | Some result => Returns result
          | None => Returns {| authorized := false; method := none |}
          end
  end.

End WithLookup.

(** [authorizeRequest]: the body above, awaiting [getSecretValue]. *)
Definition authorizeRequest
    (send : jsstring -> outcome GetSecretValueResponse)
    (JSON_parse : jsstring -> outcome value)
    (builtin_member : value -> jsstring -> value)
    (event : APIGatewayProxyEvent) (secretPath : jsstring)
    (options : option Options) : outcome AuthResult :=
  authorizeRequestWith (getSecretValue send JSON_parse builtin_member)
    event secretPath options.

(** The two results the function builds. *)
Definition granted : AuthResult := {| authorized := true; method := shared_key |}.
Definition denied : AuthResult := {| authorized := false; method := none |}.

(** The request of the specification maps header names to values without
    regard to case, so ['X-API-Key'] and ['x-api-key'] are one header with
    one value.  The event of the code is a plain object that could hold the
    two spellings side by side; it stands for a request when the spellings
    it holds agree. *)
Definition oneCredential (event : APIGatewayProxyEvent) : Prop :=
  forall upper lower,
    header event (js "X-API-Key") = Some upper ->
    header event (js "x-api-key") = Some lower ->
    upper = lower.

(** *** The doubles of auth/tests/authorize.test.ts

    The mocked client knows the secret ['/aviary/shared/api-key'], whose
    text is [{"AVIARY_SHARED_API_KEY":"valid-shared-key-12345"}], and
    rejects every other id.  34 is the code unit of the double quote. *)
Definition quoted (s : string) : jsstring := [34] ++ js s ++ [34].

Definition mockSecretText : jsstring :=
  js "{" ++ quoted "AVIARY_SHARED_API_KEY" ++ js ":" ++
  quoted "valid-shared-key-12345" ++ js "}".

Definition mockSend (secretId : jsstring) : outcome GetSecretValueResponse :=
  if str_eqb secretId (js "/aviary/shared/api-key")
  then Returns {| SecretString := Some mockSecretText |}
  else Throws (ServiceError (js "Secret not found")).

(** [JSON.parse] on the one text the mocked secret holds. *)
Definition parseMockSecret (text : jsstring) : outcome value :=
  if str_eqb text mockSecretText
  then Returns (VObject [(js "AVIARY_SHARED_API_KEY",
                          VString (js "valid-shared-key-12345"))])
  else Throws SyntaxError.

Definition noBuiltin (v : value) (key : jsstring) : value := VUndefined.

(** The second secret of the test file, ['/aviary/test/custom-key'], whose
    text is [{"CUSTOM_KEY_NAME":"custom-key-value-abc"}]; the client
    below knows both secrets and [JSON.parse] both texts. *)
Definition mockCustomText : jsstring :=
  js "{" ++ quoted "CUSTOM_KEY_NAME" ++ js ":" ++
  quoted "custom-key-value-abc" ++ js "}".

Definition mockSendBoth (secretId : jsstring) : outcome GetSecretValueResponse :=
  if str_eqb secretId (js "/aviary/shared/api-key")
  then Returns {| SecretString := Some mockSecretText |}
  else if str_eqb secretId (js "/aviary/test/custom-key")
  then Returns {| SecretString := Some mockCustomText |}
  else Throws (ServiceError (js "Secret not found")).

Definition parseMockSecrets (text : jsstring) : outcome value :=
  if str_eqb text mockSecretText
  then Returns (VObject [(js "AVIARY_SHARED_API_KEY",
                          VString (js "valid-shared-key-12345"))])
  else if str_eqb text mockCustomText
  then Returns (VObject [(js "CUSTOM_KEY_NAME",
                          VString (js "custom-key-value-abc"))])
  else Throws SyntaxError.

Definition eventWith (hs : list (jsstring * jsstring)) : APIGatewayProxyEvent :=
  {| headers := Some (list_to_map hs); apiKeyId := None |}.

End Authorize.

(** ** The deprecation header injector

    [auth/src/deprecation.ts] is not among the sources: the README
    and the test manifest describe [addDeprecationHeaders], [src/index.ts]
    no longer exports it.  This module follows the specification. *)

Module Deprecation.
Import JsString.

(** Modelled from the spec: the closed enumeration of [AuthResult.method]
    (section 3), wider than the type [authorize.ts] declares. *)
Inductive Method : Type :=
| SharedKey          (* 'shared-key' *)
| LegacyApiGateway   (* 'legacy-api-gateway' *)
| LegacyBearer       (* 'legacy-bearer' *)
| NoMethod.          (* 'none' *)

(** Modelled from the spec: [AuthResult] with its optional [deprecation]
    marker (section 3); [None] is an absent marker. *)
Record AuthResult : Type := {
  authorized : bool;
  method : Method;
  deprecation : option jsstring
}.

Definition methodName (m : Method) : jsstring :=
  match m with
  | SharedKey => js "shared-key"
  | LegacyApiGateway => js "legacy-api-gateway"
  | LegacyBearer => js "legacy-bearer"
  | NoMethod => js "none"
  end.

(** A result of the shipped [authorizeRequest] read at the documented type:
    the object has the two fields [authorized] and [method] and no other. *)
Definition ofShipped (r : Authorize.AuthResult) : AuthResult :=
  {| authorized := Authorize.authorized r;
     method := match Authorize.method r with
               | Authorize.shared_key => SharedKey
               | Authorize.none => NoMethod
               end;
     deprecation := None |}.

(** A [Record<string, string>]: the own properties of the object in
    insertion order.  Writing a name that is there replaces its value in
    place, writing a new name appends it. *)
Abbreviation Headers := (list (list N * list N)).

Fixpoint setHeader (h : Headers) (name v : jsstring) : Headers :=
  match h with
  | [] => [(name, v)]
  | (k, old) :: h' =>
      if str_eqb k name then (k, v) :: h'
      else (k, old) :: setHeader h' name v
  end.

Fixpoint getHeader (h : Headers) (name : jsstring) : option jsstring :=
  match h with
  | [] => None
  | (k, v) :: h' => if str_eqb k name then Some v else getHeader h' name
  end.

Definition names (h : Headers) : list jsstring := List.map fst h.

(** [<https://docs.chirpy.studio/auth-migration>; rel="deprecation"];
    34 is the code unit of the double quote. *)
Definition linkValue : jsstring :=
  js "<https://docs.chirpy.studio/auth-migration>; rel=" ++ [34] ++
  js "deprecation" ++ [34].

(** The names the injector writes. *)
Definition injected : list jsstring :=
  [js "Sunset"; js "Deprecation"; js "Link"; js "X-Auth-Method"].

Section WithDateFormat.

(** Modelled from the spec: the reformatting of the ISO-8601 [sunsetDate]
    into an HTTP-date ([2025-06-15T14:30:00Z] becomes
    [Sun, 15 Jun 2025 14:30:00 GMT]).  The specification gives one example
    and no rule for other inputs, so the conversion stays a parameter. *)
Variable httpDate : jsstring -> jsstring.

(** Modelled from the spec: [addDeprecationHeaders] (section 4.2), whose
    source file is missing.  An absent marker leaves the headers as they
    are; a present one writes the four headers. *)
Definition addDeprecationHeaders
    (existingHeaders : Headers) (authResult : AuthResult)
    (sunsetDate : jsstring) : Headers :=
  match deprecation authResult with
  | None => existingHeaders
  | Some _ =>
      let h1 := setHeader existingHeaders (js "Sunset") (httpDate sunsetDate) in
      let h2 := setHeader h1 (js "Deprecation") (js "true") in
      let h3 := setHeader h2 (js "Link") linkValue in
      setHeader h3 (js "X-Auth-Method") (methodName (method authResult))
  end.

End WithDateFormat.

(** The stub that RED_PHASE_SUMMARY.md prints as the first
    [src/deprecation.ts]: [return headers;]. *)
Definition addDeprecationHeadersStub
    (headers : Headers) (authResult : AuthResult) (sunsetDate : jsstring)
    : Headers :=
  headers.

(** A conversion that knows the example of the specification. *)
Definition exampleHttpDate (iso : jsstring) : jsstring :=
  if str_eqb iso (js "2025-06-15T14:30:00Z")
  then js "Sun, 15 Jun 2025 14:30:00 GMT"
  else iso.

Definition legacyBearerResult : AuthResult :=
  {| authorized := true; method := LegacyBearer;
     deprecation := Some (js "Bearer token authentication is deprecated") |}.

End Deprecation.

(** ** health/src/health-handler.ts *)

Module Health.
Import JsString.

(** *** What a [catch] receives

    The handlers of the file only ask whether the thrown value is an
    [Error], and read its [message] if so. *)
Inductive thrown : Type :=
| ErrorObject (message : jsstring)
| OtherValue.

Inductive settled (A : Type) : Type :=
| Resolves (a : A)
| Rejects (e : thrown).
Arguments Resolves {A} a.
Arguments Rejects {A} e.

(** [error instanceof Error ? error.message : 'Unknown error'] *)
Definition messageOf (e : thrown) : jsstring :=
  match e with
  | ErrorObject message => message
  | OtherValue => js "Unknown error"
  end.

(** *** types.ts *)

Inductive DependencyType : Type :=
| dynamodb
| s3
| sqs
| custom.

(** [check] is the custom check of the dependency, given by what one call
    of it settles to, together with the time [Date.now() - start] measured
    around the call. *)
Record HealthCheckDependency : Type := {
  name : jsstring;
  type : DependencyType;
  resource : option jsstring;
  check : option (settled bool * Z)
}.

Record HealthCheckConfig : Type := {
  serviceName : jsstring;
  version : option jsstring;
  gitCommit : option jsstring;
  environment : option jsstring;
  deployedAt : option jsstring;
  dependencies : option (list HealthCheckDependency)
}.

Inductive DependencyHealth : Type :=
| dep_healthy      (* 'healthy' *)
| dep_unhealthy.   (* 'unhealthy' *)

Record DependencyStatus : Type := {
  dep_name : jsstring;
  dep_type : DependencyType;
  dep_status : DependencyHealth;
  dep_resource : option jsstring;
  dep_error : option jsstring;
  dep_responseTime : option Z
}.

Inductive ServiceHealth : Type :=
| healthy
| degraded
| unhealthy.

Record HealthCheckResponse : Type := {
  status : ServiceHealth;
  service : jsstring;
  res_version : option jsstring;
  res_gitCommit : option jsstring;
  res_environment : option jsstring;
  res_deployedAt : option jsstring;
  timestamp : jsstring;
  uptime : Z;
  res_dependencies : option (list DependencyStatus)
}.

(** What the three probes return. *)
Record CheckResult : Type := {
  is_healthy : bool;
  error : option jsstring;
  responseTime : Z
}.

Record APIGatewayProxyResult : Type := {
  statusCode : Z;
  headers : list (list N * list N);
  body : jsstring
}.

(** *** The surroundings of a call

    The three AWS clients, each given by what [client.send(command)]
    settles to (a failing constructor counts as a rejection, it is inside
    the same [try]) and by the time measured around it; the process
    environment; the clock; and [JSON.stringify].  A handler call probes
    once per dependency, so an answer is indexed by the position of the
    dependency in the configuration besides the resource and the region:
    two probes of one resource need not agree.  [describeTable] resolves to
    [response.Table?.TableStatus], [None] when it is [undefined]. *)
Record World : Type := {
  describeTable : nat -> jsstring -> jsstring -> settled (option jsstring) * Z;
  headBucket : nat -> jsstring -> jsstring -> settled unit * Z;
  getQueueAttributes : nat -> jsstring -> jsstring -> settled unit * Z;
  AWS_REGION : option jsstring;
  SERVICE_VERSION : option jsstring;
  GIT_COMMIT : option jsstring;
  ENVIRONMENT : option jsstring;
  DEPLOYED_AT : option jsstring;
  startTime : Z;
  now : Z;
  nowISOString : jsstring;
  stringify : HealthCheckResponse -> jsstring
}.

(** [`Table status: ${status}`]; an [undefined] status prints as the word. *)
Definition tableStatusMessage (tableStatus : option jsstring) : jsstring :=
  js "Table status: " ++ default (js "undefined") tableStatus.

Definition checkDynamoDBTable
    (w : World) (call : nat) (tableName region : jsstring) : CheckResult :=
  match describeTable w call tableName region with
  | (Resolves tableStatus, elapsed) =>
      if bool_decide (tableStatus = Some (js "ACTIVE"))
      then {| is_healthy := true; error := None; responseTime := elapsed |}
      else {| is_healthy := false;
              error := Some (tableStatusMessage tableStatus);
              responseTime := elapsed |}
  | (Rejects e, elapsed) =>
      {| is_healthy := false; error := Some (messageOf e);
         responseTime := elapsed |}
  end.

Definition checkS3Bucket
    (w : World) (call : nat) (bucketName region : jsstring) : CheckResult :=
  match headBucket w call bucketName region with
  | (Resolves _, elapsed) =>
      {| is_healthy := true; error := None; responseTime := elapsed |}
  | (Rejects e, elapsed) =>
      {| is_healthy := false; error := Some (messageOf e);
         responseTime := elapsed |}
  end.

Definition checkSQSQueue
    (w : World) (call : nat) (queueUrl region : jsstring) : CheckResult :=
  match getQueueAttributes w call queueUrl region with
  | (Resolves _, elapsed) =>
      {| is_healthy := true; error := None; responseTime := elapsed |}
  | (Rejects e, elapsed) =>
      {| is_healthy := false; error := Some (messageOf e);
         responseTime := elapsed |}
  end.

(** [dep.resource] as a condition: a string that is there and not empty. *)
Definition usable (resource : option jsstring) : option jsstring :=
  match resource with
  | Some r => if is_empty r then None else Some r
  | None => None
  end.

(** The [try] block of [checkDependency] up to the point where [result] is
    assigned: the chain of [if]s, which ends in a [throw]. *)
Definition probe
    (w : World) (call : nat) (dep : HealthCheckDependency) (region : jsstring)
  : settled CheckResult :=
  match check dep with
  | Some (outcome, elapsed) =>
      match outcome with
      | Resolves isHealthy =>
          Resolves {| is_healthy := isHealthy; error := None;
                      responseTime := elapsed |}
      | Rejects e => Rejects e
      end
  | None =>
      match type dep, usable (resource dep) with
      | dynamodb, Some r => Resolves (checkDynamoDBTable w call r region)
      | s3, Some r => Resolves (checkS3Bucket w call r region)
      | sqs, Some r => Resolves (checkSQSQueue w call r region)
      | _, _ =>
          Rejects (ErrorObject
                     (js "Invalid dependency configuration: " ++ name dep))
      end
  end.

Definition checkDependency
    (w : World) (call : nat) (dep : HealthCheckDependency) (region : jsstring)
  : DependencyStatus :=
  match probe w call dep region with
  | Resolves result =>
      {| dep_name := name dep;
         dep_type := type dep;
         dep_status := if is_healthy result then dep_healthy else dep_unhealthy;
         dep_resource := resource dep;
         dep_error :=
           match error result with
           | Some message => if is_empty message then None else Some message
           | None => None
           end;
         dep_responseTime := Some (responseTime result) |}
  | Rejects e =>
      {| dep_name := name dep;
         dep_type := type dep;
         dep_status := dep_unhealthy;
         dep_resource := resource dep;
         dep_error := Some (messageOf e);
         dep_responseTime := None |}
  end.

Definition isUnhealthy (d : DependencyStatus) : bool :=
  match dep_status d with
  | dep_unhealthy => true
  | dep_healthy => false
  end.

(** [process.env.AWS_REGION || 'us-east-1'] *)
Definition regionOf (w : World) : jsstring :=
  match usable (AWS_REGION w) with
  | Some region => region
  | None => js "us-east-1"
  end.

(** The [response] object at the point where it is serialised. *)
Definition healthResponse (config : HealthCheckConfig) (w : World)
  : HealthCheckResponse :=
  let region := regionOf w in
  let uptime := ((now w - startTime w) / 1000)%Z in
  let response :=
    {| status := healthy;
       service := serviceName config;
       res_version := Authorize.or_else (version config) (SERVICE_VERSION w);
       res_gitCommit := Authorize.or_else (gitCommit config) (GIT_COMMIT w);
       res_environment := Authorize.or_else (environment config) (ENVIRONMENT w);
       res_deployedAt := Authorize.or_else (deployedAt config) (DEPLOYED_AT w);
       timestamp := nowISOString w;
       uptime := uptime;
       res_dependencies := None |} in
  match dependencies config with
  | Some (dep :: deps) =>
      let dependencyStatuses :=
        imap (fun call dep => checkDependency w call dep region) (dep :: deps) in
      let unhealthyCount :=
        length (List.filter isUnhealthy dependencyStatuses) in
      {| status :=
           if (unhealthyCount =? length dependencyStatuses)%nat then unhealthy
           else if (0 <? unhealthyCount)%nat then degraded
           else healthy;
         service := service response;
         res_version := res_version response;
         res_gitCommit := res_gitCommit response;
         res_environment := res_environment response;
         res_deployedAt := res_deployedAt response;
         timestamp := timestamp response;
         uptime := uptime;
         res_dependencies := Some dependencyStatuses |}
  | _ => response
  end.

(** The handler that [createHealthHandler config] returns; it reads neither
    its event nor its context. *)
Definition createHealthHandler (config : HealthCheckConfig) (w : World)
  : APIGatewayProxyResult :=
  let response := healthResponse config w in
  let httpStatus :=
    match status response with
    | unhealthy => 503%Z
    | _ => 200%Z
    end in
  {| statusCode := httpStatus;
     headers := [(js "Content-Type", js "application/json");
                 (js "Cache-Control", js "no-cache, no-store, must-revalidate")];
     body := stringify w response |}.

(** *** Doubles

    A world in which the table, the bucket and the queue answer as given,
    after 12, 7 and 9 milliseconds, with an empty environment, a process
    that started at 1000 and is asked at 5500, and a serialiser that prints
    nothing. *)
Definition worldWith
    (table : settled (option jsstring)) (bucket queue : settled unit) : World :=
  {| describeTable := fun _ _ _ => (table, 12%Z);
     headBucket := fun _ _ _ => (bucket, 7%Z);
     getQueueAttributes := fun _ _ _ => (queue, 9%Z);
     AWS_REGION := None;
     SERVICE_VERSION := None;
     GIT_COMMIT := None;
     ENVIRONMENT := None;
     DEPLOYED_AT := None;
     startTime := 1000%Z;
     now := 5500%Z;
     nowISOString := js "2025-06-15T14:30:00.000Z";
     stringify := fun _ => [] |}.

Definition dependencyOn
    (n : string) (t : DependencyType) (r : option jsstring)
  : HealthCheckDependency :=
  {| name := js n; type := t; resource := r; check := None |}.

Definition customDependency (n : string) (outcome : settled bool)
  : HealthCheckDependency :=
  {| name := js n; type := custom; resource := None;
     check := Some (outcome, 3%Z) |}.

Definition configWith (deps : option (list HealthCheckDependency))
  : HealthCheckConfig :=
  {| serviceName := js "condor"; version := None; gitCommit := None;
     environment := None; deployedAt := None; dependencies := deps |}.

End Health.

(** ** Facts about the string primitives *)

Section JsStringFacts.
Import JsString.

Lemma startsWith_spec (s p : jsstring) :
  startsWith s p = true <-> exists rest, s = p ++ rest.
Proof.
  revert s; induction p as [|c p IH]; intros s; simpl.
  - split; [intros _; now exists s | reflexivity].
  - destruct s as [|d s].
    + split; [discriminate | intros [rest H]; discriminate].
    + rewrite andb_true_iff, N.eqb_eq, IH. split.
      * intros [-> [rest ->]]. now exists rest.
      * intros [rest H]. injection H as -> ->. split; [reflexivity | now exists rest].
Qed.

Lemma startsWith_app (p rest : jsstring) : startsWith (p ++ rest) p = true.
Proof. apply startsWith_spec. now exists rest. Qed.

Lemma startsWith_false (s p : jsstring) :
  startsWith s p = false <-> ~ exists rest, s = p ++ rest.
Proof.
  rewrite <- startsWith_spec. destruct (startsWith s p); split; easy.
Qed.

Lemma str_eqb_eq (a b : jsstring) : str_eqb a b = true <-> a = b.
Proof. unfold str_eqb. apply bool_decide_eq_true. Qed.

Lemma str_eqb_neq (a b : jsstring) : str_eqb a b = false <-> a <> b.
Proof. unfold str_eqb. apply bool_decide_eq_false. Qed.

Lemma is_empty_true (s : jsstring) : is_empty s = true <-> s = [].
Proof. destruct s; simpl; split; congruence. Qed.

Lemma is_empty_false (s : jsstring) : is_empty s = false <-> s <> [].
Proof. destruct s; simpl; split; congruence. Qed.

Lemma substring_app (p rest : jsstring) : substring (p ++ rest) (length p) = rest.
Proof. unfold substring. apply drop_app_length. Qed.

End JsStringFacts.

(** ** Path normalisation *)

Section PathNormalizationFacts.
Import JsString PathNormalization.

Lemma withLeadingSlash_head (p : jsstring) :
  exists tl, withLeadingSlash p = 47 :: tl.
Proof.
  unfold withLeadingSlash. destruct (startsWith p (js "/")) eqn:E.
  - apply startsWith_spec in E as [rest ->]. now exists rest.
  - now exists p.
Qed.

Lemma withLeadingSlash_fixed (p : jsstring) :
  withLeadingSlash (47 :: p) = 47 :: p.
Proof. reflexivity. Qed.

Lemma normalizeApiPath_case (p s : jsstring) :
  normalize_case p s (normalizeApiPath p s).
Proof.
  unfold normalizeApiPath.
  destruct (is_empty p) eqn:Ep.
  { apply case_empty_path. now apply is_empty_true. }
  apply is_empty_false in Ep.
  destruct (is_empty s) eqn:Es.
  { apply is_empty_true in Es. now apply case_no_prefix. }
  apply is_empty_false in Es.
  fold (withLeadingSlash p). cbv zeta.
  destruct (str_eqb (withLeadingSlash p) (js "/" ++ s)) eqn:Eeq;
    [ | destruct (startsWith (withLeadingSlash p) ((js "/" ++ s) ++ js "/"))
          eqn:Esw ]; cbn [orb].
  - apply str_eqb_eq in Eeq. rewrite Eeq at 1.
    unfold substring. rewrite drop_all. cbn [is_empty].
    now apply case_exact.
  - apply str_eqb_neq in Eeq.
    apply startsWith_spec in Esw as [rest Hrest].
    rewrite <- !app_assoc in Hrest.
    assert (Hd : substring (withLeadingSlash p) (length (js "/" ++ s))
                 = 47 :: rest).
    { rewrite Hrest at 1. rewrite (app_assoc (js "/") s).
      apply substring_app. }
    rewrite Hd. cbn [is_empty].
    exact (case_segment p s rest Ep Es Hrest).
  - apply str_eqb_neq in Eeq.
    apply case_other; try assumption.
    intros rest Hrest. apply startsWith_false in Esw. apply Esw.
    exists rest. rewrite Hrest. now rewrite <- !app_assoc.
Qed.

Lemma normalizeApiPath_head (p s : jsstring) :
  exists tl, normalizeApiPath p s = 47 :: tl.
Proof.
  destruct (normalizeApiPath_case p s) as [ | | | rest | ];
    try apply withLeadingSlash_head; eexists; reflexivity.
Qed.

Lemma carriesPrefix_spec (path s : jsstring) :
  carriesPrefix path s = true <->
  path = js "/" ++ s \/ exists rest, path = js "/" ++ s ++ js "/" ++ rest.
Proof.
  unfold carriesPrefix. cbv zeta.
  rewrite orb_true_iff, str_eqb_eq, startsWith_spec.
  split; (intros [H | [rest H]]; [now left | right; exists rest]).
  - rewrite H. now rewrite <- !app_assoc.
  - rewrite H. now rewrite <- !app_assoc.
Qed.

(** A path that begins with a slash is left alone by a non-empty prefix
    exactly when it does not carry that prefix. *)
Lemma normalizeApiPath_fixed_iff (tl s : jsstring) :
  s <> [] ->
  normalizeApiPath (47 :: tl) s = 47 :: tl <-> carriesPrefix (47 :: tl) s = false.
Proof.
  intros Hs. rewrite <- not_true_iff_false, carriesPrefix_spec.
  destruct (normalizeApiPath_case (47 :: tl) s) as [E|_ E|_ _ E|rest _ _ E|_ _ E1 E2];
    rewrite ?withLeadingSlash_fixed in *.
  - discriminate.
  - contradiction.
  - split; [intros H | intros H; exfalso; apply H; now left].
    exfalso. rewrite E in H. destruct s; [contradiction | discriminate].
  - split; [intros H | intros H; exfalso; apply H; right; now exists rest].
    exfalso. rewrite E in H. apply (f_equal (@length N)) in H.
    rewrite !length_app in H. cbn in H. lia.
  - split; [intros _ | reflexivity].
    intros [H | [rest H]]; [now apply E1 | now apply (E2 rest)].
Qed.

Ltac by_length H :=
  exfalso; apply (f_equal (@length N)) in H;
  repeat (rewrite ?length_app, ?length_cons in H; cbn [length js List.map
            list_ascii_of_string] in H);
  lia.

Ltac slashes := change (js "/") with [47] in *; cbn [app] in *.

Lemma carriesPrefix_after_strip (p s : jsstring) :
  s <> [] ->
  carriesPrefix (normalizeApiPath p s) s = true <->
  carriesPrefix (withLeadingSlash p) (s ++ js "/" ++ s) = true.
Proof.
  intros Hs. rewrite !carriesPrefix_spec.
  destruct (normalizeApiPath_case p s) as [E|_ E|_ _ E|rest _ _ E|_ _ E1 E2].
  - subst p. change (withLeadingSlash []) with (js "/").
    split; (intros [H | [rest H]]; [ | by_length H]).
    + destruct s; [contradiction | discriminate].
    + by_length H.
  - contradiction.
  - rewrite E.
    split; (intros [H | [rest H]]; [ | by_length H]).
    + destruct s; [contradiction | discriminate].
    + by_length H.
  - rewrite E. slashes. split.
    + intros [H | [rest' H]]; injection H as ->.
      * now left.
      * right. exists rest'. now rewrite <- app_assoc.
    + intros [H | [rest' H]].
      * left. injection H as H. apply app_inv_head in H.
        now injection H as ->.
      * right. exists rest'. rewrite <- app_assoc in H. slashes.
        injection H as H. apply app_inv_head in H.
        now injection H as ->.
  - split.
    + intros [H | [rest H]]; [now apply E1 in H | now apply E2 in H].
    + intros [H | [rest H]]; exfalso.
      * apply (E2 s). exact H.
      * apply (E2 (s ++ js "/" ++ rest)). rewrite H.
        now rewrite <- !app_assoc.
Qed.

Lemma repeatsPrefix_spec (p s : jsstring) :
  repeatsPrefix p s = true <->
  s <> [] /\
  (withLeadingSlash p = js "/" ++ s ++ js "/" ++ s \/
   exists rest, withLeadingSlash p = js "/" ++ s ++ js "/" ++ s ++ js "/" ++ rest).
Proof.
  unfold repeatsPrefix.
  rewrite andb_true_iff, negb_true_iff, is_empty_false, carriesPrefix_spec.
  split; (intros [Hs [H | [rest H]]]; split; trivial;
          [left | right; exists rest]);
    rewrite H; now rewrite <- ?app_assoc.
Qed.

(** C2, as the code has it: a call strips one leading prefix segment, so a
    second call returns the result of the first exactly when the path does
    not begin with the prefix segment twice in a row. *)
Theorem normalizeApiPath_idempotent_iff (p s : jsstring) :
  normalizeApiPath (normalizeApiPath p s) s = normalizeApiPath p s <->
  repeatsPrefix p s = false.
Proof.
  destruct (normalizeApiPath_head p s) as [tl Htl].
  unfold repeatsPrefix. destruct s as [|c s].
  - cbn [is_empty negb andb]. rewrite Htl. split; reflexivity.
  - cbn [is_empty negb andb].
    rewrite <- (not_true_iff_false (carriesPrefix (withLeadingSlash p) _)).
    rewrite <- carriesPrefix_after_strip by discriminate.
    rewrite not_true_iff_false. rewrite Htl.
    apply normalizeApiPath_fixed_iff. discriminate.
Qed.

(** C2 fails as stated: a path that names the service twice loses a segment
    at each call. *)
Lemma normalizeApiPath_not_idempotent :
  normalizeApiPath
    (normalizeApiPath (js "/nightingale/nightingale/v1/jobs") (js "nightingale"))
    (js "nightingale")
  <> normalizeApiPath (js "/nightingale/nightingale/v1/jobs") (js "nightingale").
Proof. vm_compute. discriminate. Qed.

Example normalizeApiPath_second_call :
  normalizeApiPath (js "/nightingale/nightingale/v1/jobs") (js "nightingale")
    = js "/nightingale/v1/jobs" /\
  normalizeApiPath (js "/nightingale/v1/jobs") (js "nightingale")
    = js "/v1/jobs".
Proof. split; reflexivity. Qed.

(** C6: the pattern ['/' + servicePrefix] is stripped only when the path
    (with its leading slash) is the pattern itself, which gives ['/'], or
    the pattern followed by ['/'], which gives the remainder from that slash
    on, untouched, doubled slashes included.  A path in which the pattern is
    followed by any other character, as in ['/nightingale-extra/v1/jobs']
    against ['nightingale'], is returned as it is. *)
Theorem normalizeApiPath_strips_whole_segment_only
    (rawPath servicePrefix : jsstring) :
  let path := withLeadingSlash rawPath in
  let prefixPattern := js "/" ++ servicePrefix in
  (normalizeApiPath rawPath servicePrefix <> path ->
     servicePrefix <> [] /\
     (path = prefixPattern \/
      exists rest, path = prefixPattern ++ js "/" ++ rest)) /\
  (servicePrefix <> [] -> path = prefixPattern ->
     normalizeApiPath rawPath servicePrefix = js "/") /\
  (servicePrefix <> [] ->
   forall rest, path = prefixPattern ++ js "/" ++ rest ->
     normalizeApiPath rawPath servicePrefix = js "/" ++ rest) /\
  (forall c rest, c <> 47 -> path = prefixPattern ++ c :: rest ->
     normalizeApiPath rawPath servicePrefix = path).
Proof.
  intros path prefixPattern. subst path prefixPattern.
  destruct (normalizeApiPath_case rawPath servicePrefix)
    as [E|Hp E|_ Hs E|rest0 _ Hs E|_ _ E1 E2].
  - subst rawPath. change (withLeadingSlash []) with (js "/").
    split; [ | split; [ | split]].
    + intros H. now contradict H.
    + reflexivity.
    + intros _ rest H. by_length H.
    + intros c rest _ H. by_length H.
  - split; [ | split; [ | split]].
    + intros H. now contradict H.
    + intros H. now contradict H.
    + intros H. now contradict H.
    + reflexivity.
  - rewrite E. split; [ | split; [ | split]].
    + intros _. split; [assumption | now left].
    + reflexivity.
    + intros _ rest H. by_length H.
    + intros c rest _ H. by_length H.
  - rewrite E. split; [ | split; [ | split]].
    + intros _. split; [assumption | right; now exists rest0].
    + intros _ H. by_length H.
    + intros _ rest H. slashes. injection H as H.
      apply app_inv_head in H. now injection H as ->.
    + intros c rest Hc H. slashes. injection H as H.
      apply app_inv_head in H. injection H as H _. now contradict Hc.
  - split; [ | split; [ | split]].
    + intros H. now contradict H.
    + intros _ H. now contradict E1.
    + intros _ rest H. now destruct (E2 rest).
    + reflexivity.
Qed.

Lemma normalizeApiPath_strips_whole_segment_only_witness :
  normalizeApiPath (js "/nightingale-extra/v1/jobs") (js "nightingale")
    = js "/nightingale-extra/v1/jobs" /\
  normalizeApiPath (js "/nightingale//v1/mix/jobs") (js "nightingale")
    = js "//v1/mix/jobs" /\
  normalizeApiPath (js "/nightingale") (js "nightingale") = js "/".
Proof.
  split; [ | split].
  - destruct (normalizeApiPath_strips_whole_segment_only
                (js "/nightingale-extra/v1/jobs") (js "nightingale"))
      as (_ & _ & _ & H).
    apply (H 45 (js "extra/v1/jobs")); [discriminate | reflexivity].
  - destruct (normalizeApiPath_strips_whole_segment_only
                (js "/nightingale//v1/mix/jobs") (js "nightingale"))
      as (_ & _ & H & _).
    apply (H ltac:(discriminate) (js "/v1/mix/jobs")). reflexivity.
  - destruct (normalizeApiPath_strips_whole_segment_only
                (js "/nightingale") (js "nightingale"))
      as (_ & H & _).
    apply H; [discriminate | reflexivity].
Defined.

(** *** The version regex *)

Lemma takeDigits_dropDigits (s : jsstring) : takeDigits s ++ dropDigits s = s.
Proof.
  induction s as [|c s IH]; simpl; [reflexivity | ].
  destruct (isDigit c); simpl; [now rewrite IH | reflexivity].
Qed.

Lemma takeDigits_digits (s : jsstring) :
  Forall (fun c => isDigit c = true) (takeDigits s).
Proof.
  induction s as [|c s IH]; simpl; [constructor | ].
  destruct (isDigit c) eqn:E; constructor; assumption.
Qed.

Lemma digits_then_other (digits : jsstring) (c : N) (rest : jsstring) :
  Forall (fun c => isDigit c = true) digits -> isDigit c = false ->
  takeDigits (digits ++ c :: rest) = digits /\
  dropDigits (digits ++ c :: rest) = c :: rest.
Proof.
  intros Hd Hc. induction Hd as [|d digits Hd _ IH]; simpl.
  - now rewrite Hc.
  - rewrite Hd. destruct IH as [-> ->]. now split.
Qed.

Lemma matchVersion_spec (path digits : jsstring) :
  matchVersion path = Some digits <->
  digits <> [] /\ Forall (fun c => isDigit c = true) digits /\
  exists rest, path = js "/v" ++ digits ++ js "/" ++ rest.
Proof.
  unfold matchVersion. split.
  - destruct (startsWith path (js "/v")) eqn:E; [ | discriminate].
    apply startsWith_spec in E as [r ->].
    change (substring (js "/v" ++ r) 2) with r. cbv zeta.
    destruct (is_empty (takeDigits r)) eqn:Ed; [discriminate | ].
    destruct (startsWith (dropDigits r) (js "/")) eqn:Es; [ | discriminate].
    cbn [negb andb]. intros [= <-].
    apply is_empty_false in Ed. apply startsWith_spec in Es as [rest Hrest].
    split; [assumption | split; [apply takeDigits_digits | ]].
    exists rest. rewrite <- Hrest. now rewrite takeDigits_dropDigits.
  - intros (Hne & Hd & rest & ->).
    rewrite startsWith_app.
    change (substring (js "/v" ++ digits ++ js "/" ++ rest) 2)
      with (digits ++ 47 :: rest).
    cbv zeta.
    destruct (digits_then_other digits 47 rest Hd eq_refl) as [-> ->].
    apply is_empty_false in Hne. rewrite Hne. reflexivity.
Qed.

(** C7: [extractApiVersion] returns ['v'] followed by the digits exactly
    when the path begins, at index 0, with ['/v'], one or more digits and a
    ['/']; every other path gives [null], among them the unversioned paths,
    the paths whose marker comes later, and the malformed markers ['/v/'],
    ['/vX/'] and ['/v1test']. *)
Theorem extractApiVersion_leading_segment (path : jsstring) :
  (forall version,
     extractApiVersion path = Some version <->
     exists digits rest,
       digits <> [] /\ Forall (fun c => isDigit c = true) digits /\
       path = js "/v" ++ digits ++ js "/" ++ rest /\
       version = js "v" ++ digits) /\
  (extractApiVersion path = None <->
     ~ exists digits rest,
       digits <> [] /\ Forall (fun c => isDigit c = true) digits /\
       path = js "/v" ++ digits ++ js "/" ++ rest) /\
  extractApiVersion (js "/v10/test") = Some (js "v10") /\
  extractApiVersion (js "/health") = None /\
  extractApiVersion (js "/") = None /\
  extractApiVersion (js "/api/v1/test") = None /\
  extractApiVersion (js "/v/test") = None /\
  extractApiVersion (js "/vX/test") = None /\
  extractApiVersion (js "/v1test") = None.
Proof.
  split; [ | split; [ | repeat split]].
  - intros version. unfold extractApiVersion.
    destruct (matchVersion path) as [group1|] eqn:E.
    + apply matchVersion_spec in E as (Hne & Hd & rest & Hp).
      split.
      * intros [= <-]. now exists group1, rest.
      * intros (digits & rest' & Hne' & Hd' & Hp' & ->).
        assert (Hm : matchVersion path = Some digits).
        { apply matchVersion_spec. split; [assumption | split; [assumption | ]].
          now exists rest'. }
        assert (Hm' : matchVersion path = Some group1).
        { apply matchVersion_spec. split; [assumption | split; [assumption | ]].
          now exists rest. }
        congruence.
    + split; [discriminate | ].
      intros (digits & rest & Hne & Hd & Hp & _). exfalso.
      assert (Hm : matchVersion path = Some digits).
      { apply matchVersion_spec. split; [assumption | split; [assumption | ]].
        now exists rest. }
      congruence.
  - unfold extractApiVersion.
    destruct (matchVersion path) as [group1|] eqn:E.
    + apply matchVersion_spec in E as (Hne & Hd & rest & Hp).
      split; [discriminate | ]. intros H. exfalso. apply H.
      now exists group1, rest.
    + split; [ | reflexivity]. intros _ (digits & rest & Hne & Hd & Hp).
      assert (Hm : matchVersion path = Some digits).
      { apply matchVersion_spec. split; [assumption | split; [assumption | ]].
        now exists rest. }
      congruence.
Qed.

(** C8: [isValidApiVersion] is true exactly when [extractApiVersion] gives
    [null] or the expected version, ['v1'] when none is passed; ['/health']
    is valid, ['/v2/x'] is not valid against ['v1']. *)
Theorem isValidApiVersion_iff
    (path : jsstring) (expectedVersion : option jsstring) :
  (isValidApiVersion path expectedVersion = true <->
     extractApiVersion path = None \/
     extractApiVersion path = Some (default (js "v1") expectedVersion)) /\
  isValidApiVersion (js "/health") None = true /\
  isValidApiVersion (js "/health") expectedVersion = true /\
  isValidApiVersion (js "/v2/x") (Some (js "v1")) = false /\
  isValidApiVersion (js "/v2/x") None = false.
Proof.
  split; [ | repeat split].
  unfold isValidApiVersion. cbv zeta.
  destruct (extractApiVersion path) as [v|].
  - rewrite str_eqb_eq. split.
    + intros ->. now right.
    + intros [H | H]; [discriminate | now injection H].
  - split; [now left | reflexivity].
Qed.

End PathNormalizationFacts.

(** ** The authorizer *)

Section AuthorizeFacts.
Import JsString Authorize.

(** *** [trim] *)

Lemma trimEnd_nil_iff (s : jsstring) :
  trimEnd s = [] <-> Forall (fun c => isWhiteSpace c = true) s.
Proof.
  induction s as [|c s IH]; simpl.
  - split; [constructor | reflexivity].
  - destruct (trimEnd s) as [|d t] eqn:E.
    + destruct (isWhiteSpace c) eqn:Ec.
      * split; [intros _ | intros _; reflexivity].
        constructor; [assumption | now apply IH].
      * split; [discriminate | ]. intros H. inversion H. congruence.
    + split; [discriminate | ]. intros H. inversion H as [|? ? _ Hs].
      apply IH in Hs. discriminate.
Qed.

Lemma trimStart_nil_iff (s : jsstring) :
  trimStart s = [] <-> Forall (fun c => isWhiteSpace c = true) s.
Proof.
  induction s as [|c s IH]; simpl.
  - split; [constructor | reflexivity].
  - destruct (isWhiteSpace c) eqn:Ec.
    + rewrite IH. split; [now constructor | now inversion 1].
    + split; [discriminate | ]. intros H. inversion H. congruence.
Qed.

Lemma trimStart_head (s : jsstring) (c : N) (t : jsstring) :
  trimStart s = c :: t -> isWhiteSpace c = false.
Proof.
  induction s as [|d s IH]; simpl; [discriminate | ].
  destruct (isWhiteSpace d) eqn:Ed; [exact IH | ].
  intros [= <- _]. exact Ed.
Qed.

(** [s.trim()] is empty exactly when [s] is empty or all white space. *)
Lemma trim_nil_iff (s : jsstring) :
  trim s = [] <-> Forall (fun c => isWhiteSpace c = true) s.
Proof.
  unfold trim. rewrite trimEnd_nil_iff, <- (trimStart_nil_iff s).
  destruct (trimStart s) as [|c t] eqn:E.
  - split; [intros _; reflexivity | intros _; constructor].
  - split; [ | discriminate]. intros H. inversion H as [|? ? Hc _].
    apply trimStart_head in E. congruence.
Qed.

(** *** [getSecretValue] and [authorizeRequest], for any secret store *)

Context (send : jsstring -> outcome GetSecretValueResponse)
        (JSON_parse : jsstring -> outcome value)
        (builtin_member : value -> jsstring -> value).

Local Abbreviation getSecret := (getSecretValue send JSON_parse builtin_member).
Local Abbreviation authorize := (authorizeRequest send JSON_parse builtin_member).
Local Abbreviation credential event :=
  (or_else (header event (js "X-API-Key")) (header event (js "x-api-key"))).

(** The [catch] of [getSecretValue] turns every failure into [null]. *)
Lemma getSecretValue_returns (secretPath key : jsstring) :
  exists v, getSecret secretPath key = Returns v /\
            (v = VNull \/ truthy v = true).
Proof.
  unfold getSecretValue.
  destruct (send secretPath) as [[[text|]]|e]; cbn;
    try (eexists; split; [reflexivity | now left]).
  destruct (is_empty text); cbn;
    try (eexists; split; [reflexivity | now left]).
  destruct (JSON_parse text) as [secrets|e]; cbn;
    try (eexists; split; [reflexivity | now left]).
  destruct (member builtin_member secrets key) as [x|e]; cbn;
    try (eexists; split; [reflexivity | now left]).
  destruct (truthy x) eqn:E; eexists; (split; [reflexivity | ]);
    [now right | now left].
Qed.

(** A string comes out of [getSecretValue] only through the whole chain:
    the store answers, the secret has a text, the text parses, and the
    member read gives that string. *)
Lemma getSecretValue_string (secretPath key expected : jsstring) :
  getSecret secretPath key = Returns (VString expected) ->
  exists response text secrets,
    send secretPath = Returns response /\
    SecretString response = Some text /\
    JSON_parse text = Returns secrets /\
    member builtin_member secrets key = Returns (VString expected).
Proof.
  unfold getSecretValue.
  destruct (send secretPath) as [[[text|]]|e]; cbn; try discriminate.
  destruct (is_empty text); cbn; try discriminate.
  destruct (JSON_parse text) as [secrets|e] eqn:Ep; cbn; try discriminate.
  destruct (member builtin_member secrets key) as [x|e] eqn:Em; cbn;
    try discriminate.
  destruct (truthy x); [ | discriminate].
  intros [= ->]. eexists _, text, secrets. repeat split; assumption.
Qed.

Lemma getSecretValue_store_throws (secretPath key : jsstring) (e : exn) :
  send secretPath = Throws e -> getSecret secretPath key = Returns VNull.
Proof. unfold getSecretValue. now intros ->. Qed.

(** What the body computes, in one expression, for any lookup. *)
Lemma authorizeRequestWith_unfold
    (lookup : jsstring -> jsstring -> outcome value)
    (event : APIGatewayProxyEvent) (secretPath : jsstring)
    (options : option Options) :
  authorizeRequestWith lookup event secretPath options =
  Returns
    match credential event with
    | None => denied
    | Some sharedKey =>
        if is_empty (trim sharedKey) then denied
        else match lookup secretPath (keyNameOf options) with
             | Returns (VString expected) =>
                 if str_eqb (trim sharedKey) expected then granted else denied
             | _ => denied
             end
    end.
Proof.
  unfold authorizeRequestWith. cbv zeta.
  destruct (credential event) as [sharedKey|]; [ | reflexivity].
  destruct (is_empty sharedKey) eqn:Ek.
  { apply is_empty_true in Ek. subst sharedKey. reflexivity. }
  destruct (is_empty (trim sharedKey)) eqn:Et; [reflexivity | ].
  destruct (lookup secretPath (keyNameOf options))
    as [[ | |b|n|expected|items|props| ]|e];
    cbn; try reflexivity.
  - now destruct b.
  - now destruct (negb (n =? 0)%Z).
  - destruct (str_eqb (trim sharedKey) expected) eqn:Ex.
    + apply str_eqb_eq in Ex. subst expected. now rewrite Et.
    + now destruct (negb (is_empty expected)).
Qed.

(** The [catch] of the body: a lookup that throws, or gives [null], is a
    denial and never an exception. *)
Lemma authorizeRequestWith_lookup_fails
    (lookup : jsstring -> jsstring -> outcome value)
    (event : APIGatewayProxyEvent) (secretPath : jsstring)
    (options : option Options) :
  (exists e, lookup secretPath (keyNameOf options) = Throws e) \/
  lookup secretPath (keyNameOf options) = Returns VNull ->
  authorizeRequestWith lookup event secretPath options = Returns denied.
Proof.
  intros H. rewrite authorizeRequestWith_unfold.
  destruct (credential event) as [k|]; [ | reflexivity].
  destruct (is_empty (trim k)); [reflexivity | ].
  now destruct H as [[e ->] | ->].
Qed.

Lemma authorizeRequest_unfold
    (event : APIGatewayProxyEvent) (secretPath : jsstring)
    (options : option Options) :
  authorize event secretPath options =
  Returns
    match credential event with
    | None => denied
    | Some sharedKey =>
        if is_empty (trim sharedKey) then denied
        else match getSecret secretPath (keyNameOf options) with
             | Returns (VString expected) =>
                 if str_eqb (trim sharedKey) expected then granted else denied
             | _ => denied
             end
    end.
Proof. apply authorizeRequestWith_unfold. Qed.

Lemma authorizeRequest_total
    (event : APIGatewayProxyEvent) (secretPath : jsstring)
    (options : option Options) :
  authorize event secretPath options = Returns granted \/
  authorize event secretPath options = Returns denied.
Proof.
  rewrite authorizeRequest_unfold.
  destruct (credential event) as [k|]; [ | now right].
  destruct (is_empty (trim k)); [now right | ].
  destruct (getSecret secretPath (keyNameOf options)) as [[ | | | |x| | | ]|];
    try now right.
  destruct (str_eqb (trim k) x); [now left | now right].
Qed.

Lemma authorizeRequest_granted_iff
    (event : APIGatewayProxyEvent) (secretPath : jsstring)
    (options : option Options) :
  authorize event secretPath options = Returns granted <->
  exists sharedKey,
    credential event = Some sharedKey /\ trim sharedKey <> [] /\
    getSecret secretPath (keyNameOf options) = Returns (VString (trim sharedKey)).
Proof.
  rewrite authorizeRequest_unfold. split.
  - destruct (credential event) as [k|]; [ | discriminate].
    destruct (is_empty (trim k)) eqn:Et; [discriminate | ].
    apply is_empty_false in Et.
    destruct (getSecret secretPath (keyNameOf options))
      as [[ | | | |x| | | ]|]; try discriminate.
    destruct (str_eqb (trim k) x) eqn:Ex; [ | discriminate].
    apply str_eqb_eq in Ex. subst x. intros _. now exists k.
  - intros (k & -> & Ht & ->). apply is_empty_false in Ht. rewrite Ht.
    assert (E : str_eqb (trim k) (trim k) = true) by now apply str_eqb_eq.
    now rewrite E.
Qed.

(** What the code reads as the credential, for a request that carries it
    under one of the two spellings. *)
Lemma credential_of_header
    (event : APIGatewayProxyEvent) (casing value : jsstring) :
  casing = js "X-API-Key" \/ casing = js "x-api-key" ->
  header event casing = Some value ->
  oneCredential event ->
  credential event = Some value \/ (value = [] /\ credential event = None).
Proof.
  intros Hc Hh Hone. unfold oneCredential in Hone.
  destruct (header event (js "X-API-Key")) as [upper|] eqn:Eu;
    destruct (header event (js "x-api-key")) as [lower|] eqn:El;
    try (specialize (Hone _ _ eq_refl eq_refl); subst lower);
    destruct Hc as [-> | ->]; rewrite ?Eu, ?El in Hh;
    try discriminate; injection Hh as ->; cbn [or_else];
    destruct value; cbn [is_empty]; auto.
Qed.

(** With a non-empty value under ['X-API-Key'] the other spelling is not
    read at all. *)
Lemma credential_upper_first
    (event : APIGatewayProxyEvent) (value : jsstring) :
  header event (js "X-API-Key") = Some value -> value <> [] ->
  credential event = Some value.
Proof.
  intros -> Hv. cbn [or_else]. apply is_empty_false in Hv. now rewrite Hv.
Qed.

Lemma keyNameOf_default :
  keyNameOf None = js "AVIARY_SHARED_API_KEY" /\
  keyNameOf (Some {| sharedKeyName := None |}) = js "AVIARY_SHARED_API_KEY" /\
  forall name, keyNameOf (Some {| sharedKeyName := Some name |}) = name.
Proof. repeat split. Qed.

(** C1: [authorizeRequest] never throws.  Whatever the event, the secret
    path, the options and the behaviour of the secret store, the call
    resolves to a result, and every failure (no credential, the store
    throwing, a secret without text, a text that does not parse, a missing
    key) resolves to [{authorized: false, method: 'none'}]; the only other
    result is the one granted after the whole lookup succeeded.  The body
    itself turns a lookup that throws or finds nothing into the same
    denial. *)
Theorem authorizeRequest_never_throws
    (event : APIGatewayProxyEvent) (secretPath : jsstring)
    (options : option Options) :
  exists result,
    authorize event secretPath options = Returns result /\
    (result = granted \/ result = denied) /\
    (credential event = None -> result = denied) /\
    ((exists e, send secretPath = Throws e) -> result = denied) /\
    (forall response,
       send secretPath = Returns response ->
       SecretString response = None -> result = denied) /\
    (forall response text e,
       send secretPath = Returns response ->
       SecretString response = Some text ->
       JSON_parse text = Throws e -> result = denied) /\
    (forall response text secrets,
       send secretPath = Returns response ->
       SecretString response = Some text ->
       JSON_parse text = Returns secrets ->
       member builtin_member secrets (keyNameOf options) = Returns VUndefined ->
       result = denied) /\
    (result = granted ->
       exists sharedKey,
         credential event = Some sharedKey /\ trim sharedKey <> [] /\
         getSecret secretPath (keyNameOf options)
           = Returns (VString (trim sharedKey))) /\
    (forall lookup,
       (exists e, lookup secretPath (keyNameOf options) = Throws e) \/
       lookup secretPath (keyNameOf options) = Returns VNull ->
       authorizeRequestWith lookup event secretPath options = Returns denied).
Proof.
  assert (Hcatch : forall lookup,
    (exists e, lookup secretPath (keyNameOf options) = Throws e) \/
    lookup secretPath (keyNameOf options) = Returns VNull ->
    authorizeRequestWith lookup event secretPath options = Returns denied).
  { intros lookup. apply authorizeRequestWith_lookup_fails. }
  destruct (authorizeRequest_total event secretPath options) as [Hrun | Hrun].
  - exists granted. split; [exact Hrun | ].
    apply authorizeRequest_granted_iff in Hrun as (k & Hk & Ht & Hs).
    destruct (getSecretValue_string _ _ _ Hs)
      as (response & text & secrets & Hsend & Htext & Hparse & Hmem).
    split; [now left | ].
    split; [intros H; congruence | ].
    split; [intros [e H]; congruence | ].
    split; [intros ? H1 H2; congruence | ].
    split; [intros ? ? ? H1 H2 H3; congruence | ].
    split; [intros ? ? ? H1 H2 H3 H4; congruence | ].
    split; [ | exact Hcatch].
    intros _. now exists k.
  - exists denied. split; [exact Hrun | ].
    split; [now right | ].
    repeat (split; [reflexivity || (intros; reflexivity) | ]).
    split; [discriminate | exact Hcatch].
Qed.

(** C3: a request that carries the credential header as ['X-API-Key'] or as
    ['x-api-key'], with a value that is not empty once trimmed and whose
    trimmed form is the string the secret store returns under the
    configured key name, is granted through the shared key.  The configured
    key name is [options.sharedKeyName] when the options give one and
    ['AVIARY_SHARED_API_KEY'] otherwise. *)
Theorem authorizeRequest_valid_shared_key
    (event : APIGatewayProxyEvent) (secretPath : jsstring)
    (options : option Options) (casing value : jsstring) :
  casing = js "X-API-Key" \/ casing = js "x-api-key" ->
  header event casing = Some value ->
  oneCredential event ->
  trim value <> [] ->
  getSecretValue send JSON_parse builtin_member secretPath
    match options with
    | Some {| sharedKeyName := Some configured |} => configured
    | _ => js "AVIARY_SHARED_API_KEY"
    end
    = Returns (VString (trim value)) ->
  authorize event secretPath options
    = Returns {| authorized := true; method := shared_key |}.
Proof.
  intros Hc Hh Hone Ht Hs.
  assert (Hkey : keyNameOf options =
                 match options with
                 | Some {| sharedKeyName := Some configured |} => configured
                 | _ => js "AVIARY_SHARED_API_KEY"
                 end)
    by (destruct options as [[[configured|]]|]; reflexivity).
  rewrite <- Hkey in Hs.
  apply authorizeRequest_granted_iff. exists value.
  split; [ | now split].
  destruct (credential_of_header event casing value Hc Hh Hone)
    as [H | [-> _]]; [exact H | now contradict Ht].
Qed.

(** C4: a request whose credential header value is empty or white space
    only is denied, whatever the secret store holds. *)
Theorem authorizeRequest_blank_credential
    (event : APIGatewayProxyEvent) (secretPath : jsstring)
    (options : option Options) (casing value : jsstring) :
  casing = js "X-API-Key" \/ casing = js "x-api-key" ->
  header event casing = Some value ->
  oneCredential event ->
  Forall (fun c => isWhiteSpace c = true) value ->
  authorize event secretPath options
    = Returns {| authorized := false; method := none |}.
Proof.
  intros Hc Hh Hone Hblank. rewrite authorizeRequest_unfold.
  apply trim_nil_iff in Hblank.
  destruct (credential_of_header event casing value Hc Hh Hone)
    as [-> | [_ ->]]; [ | reflexivity].
  now rewrite Hblank.
Qed.

(** C5: in every result [authorizeRequest] returns, [method] is ['none']
    if and only if [authorized] is [false]. *)
Theorem authResult_method_none_iff_unauthorized
    (event : APIGatewayProxyEvent) (secretPath : jsstring)
    (options : option Options) (result : AuthResult) :
  authorize event secretPath options = Returns result ->
  (method result = none <-> authorized result = false).
Proof.
  intros Hrun.
  destruct (authorizeRequest_total event secretPath options) as [H | H];
    rewrite H in Hrun; injection Hrun as <-; cbn; split; congruence.
Qed.

(** C10: the shipped [authorizeRequest] has no legacy branch.  Every call
    resolves to a result whose method is ['shared-key'] or ['none']; read at
    the documented, wider type it is never a legacy method and carries no
    deprecation marker; and the result depends on the event through the two
    spellings of the credential header alone, so neither an
    [Authorization] header nor the API Gateway key id is consulted. *)
Theorem authorizeRequest_no_legacy_branch
    (event : APIGatewayProxyEvent) (secretPath : jsstring)
    (options : option Options) :
  exists result,
    authorize event secretPath options = Returns result /\
    (method result = shared_key \/ method result = none) /\
    Deprecation.method (Deprecation.ofShipped result)
      <> Deprecation.LegacyApiGateway /\
    Deprecation.method (Deprecation.ofShipped result)
      <> Deprecation.LegacyBearer /\
    Deprecation.deprecation (Deprecation.ofShipped result) = None /\
    (forall event',
       header event' (js "X-API-Key") = header event (js "X-API-Key") ->
       header event' (js "x-api-key") = header event (js "x-api-key") ->
       authorize event' secretPath options = Returns result).
Proof.
  assert (Hsame : forall event',
    header event' (js "X-API-Key") = header event (js "X-API-Key") ->
    header event' (js "x-api-key") = header event (js "x-api-key") ->
    authorize event' secretPath options = authorize event secretPath options).
  { intros event' Hu Hl. now rewrite !authorizeRequest_unfold, Hu, Hl. }
  destruct (authorizeRequest_total event secretPath options) as [H | H];
    eexists; (split; [exact H | ]);
    (split; [cbn; auto | ]); (split; [discriminate | ]);
    (split; [discriminate | ]); (split; [reflexivity | ]);
    intros event' Hu Hl; rewrite <- H; now apply Hsame.
Qed.

Example mock_valid_upper :
  authorizeRequest mockSend parseMockSecret noBuiltin
    (eventWith [(js "X-API-Key", js "valid-shared-key-12345")])
    (js "/aviary/shared/api-key") None = Returns granted.
Proof. vm_compute. reflexivity. Qed.

Example mock_valid_lower_trimmed :
  authorizeRequest mockSend parseMockSecret noBuiltin
    (eventWith [(js "x-api-key", js "  valid-shared-key-12345  ")])
    (js "/aviary/shared/api-key") None = Returns granted.
Proof. vm_compute. reflexivity. Qed.

Example mock_store_throws :
  authorizeRequest mockSend parseMockSecret noBuiltin
    (eventWith [(js "X-API-Key", js "some-key")])
    (js "/invalid/secret/path") None = Returns denied.
Proof. vm_compute. reflexivity. Qed.

(** When the two spellings disagree, ['X-API-Key'] is read first and
    ['x-api-key'] only if the former is absent or empty. *)
Example upper_spelling_read_first :
  authorizeRequest mockSend parseMockSecret noBuiltin
    (eventWith [(js "X-API-Key", js "invalid-key");
                (js "x-api-key", js "valid-shared-key-12345")])
    (js "/aviary/shared/api-key") None = Returns denied /\
  authorizeRequest mockSend parseMockSecret noBuiltin
    (eventWith [(js "X-API-Key", []);
                (js "x-api-key", js "valid-shared-key-12345")])
    (js "/aviary/shared/api-key") None = Returns granted.
Proof. split; vm_compute; reflexivity. Qed.

End AuthorizeFacts.

(** ** The deprecation header injector *)

Section DeprecationFacts.
Import JsString Deprecation.

Lemma getHeader_setHeader (h : Headers) (name v name' : jsstring) :
  getHeader (setHeader h name v) name' =
  if str_eqb name name' then Some v else getHeader h name'.
Proof.
  induction h as [|[k old] h IH]; cbn [setHeader getHeader].
  - reflexivity.
  - destruct (str_eqb k name) eqn:Ek; cbn [getHeader].
    + apply str_eqb_eq in Ek. subst k.
      destruct (str_eqb name name'); reflexivity.
    + rewrite IH. destruct (str_eqb k name') eqn:Ek'; [ | reflexivity].
      apply str_eqb_eq in Ek'. subst name'.
      destruct (str_eqb name k) eqn:E; [ | reflexivity].
      apply str_eqb_eq in E. apply str_eqb_neq in Ek. congruence.
Qed.

(** Writing the value a name already has changes nothing. *)
Lemma setHeader_same (h : Headers) (name v : jsstring) :
  getHeader h name = Some v -> setHeader h name v = h.
Proof.
  induction h as [|[k old] h IH]; cbn [setHeader getHeader]; [discriminate | ].
  destruct (str_eqb k name).
  - now intros [= ->].
  - intros H. now rewrite IH.
Qed.

Lemma names_setHeader (h : Headers) (name v : jsstring) :
  names (setHeader h name v) =
  if bool_decide (name ∈ names h) then names h else names h ++ [name].
Proof.
  unfold names. induction h as [|[k old] h IH]; cbn [setHeader List.map fst].
  - rewrite bool_decide_eq_false_2; [reflexivity | apply not_elem_of_nil].
  - destruct (str_eqb k name) eqn:Ek; cbn [List.map fst].
    + apply str_eqb_eq in Ek. subst k.
      rewrite bool_decide_eq_true_2; [reflexivity | apply elem_of_cons; now left].
    + apply str_eqb_neq in Ek. rewrite IH.
      destruct (bool_decide (name ∈ List.map fst h)) eqn:Ein.
      * apply bool_decide_eq_true in Ein.
        rewrite bool_decide_eq_true_2; [reflexivity | apply elem_of_cons; now right].
      * apply bool_decide_eq_false in Ein.
        rewrite bool_decide_eq_false_2; [reflexivity | ].
        intros H. apply elem_of_cons in H as [H | H]; [now apply Ek | now apply Ein].
Qed.

Lemma setHeader_keeps_names (h : Headers) (name v name' : jsstring) :
  name' ∈ names h -> name' ∈ names (setHeader h name v).
Proof.
  rewrite names_setHeader. destruct (bool_decide (name ∈ names h));
    [trivial | ]. intros H. apply elem_of_app. now left.
Qed.

Lemma setHeader_NoDup (h : Headers) (name v : jsstring) :
  NoDup (names h) -> NoDup (names (setHeader h name v)).
Proof.
  rewrite names_setHeader.
  destruct (bool_decide (name ∈ names h)) eqn:E; [trivial | ].
  apply bool_decide_eq_false in E. intros H.
  apply NoDup_app. split; [exact H | ]. split.
  - intros x Hx Hx'. apply list_elem_of_singleton in Hx'. now subst x.
  - apply NoDup_singleton.
Qed.

Context (httpDate : jsstring -> jsstring).

Local Abbreviation inject := (addDeprecationHeaders httpDate).

(** After the injector ran with a marker present, the four names hold the
    four values. *)
Lemma addDeprecationHeaders_written
    (existingHeaders : Headers) (authResult : AuthResult)
    (sunsetDate marker : jsstring) :
  deprecation authResult = Some marker ->
  let once := inject existingHeaders authResult sunsetDate in
  getHeader once (js "Sunset") = Some (httpDate sunsetDate) /\
  getHeader once (js "Deprecation") = Some (js "true") /\
  getHeader once (js "Link") = Some linkValue /\
  getHeader once (js "X-Auth-Method") = Some (methodName (method authResult)).
Proof.
  intros Hm. unfold addDeprecationHeaders. rewrite Hm. cbv zeta.
  rewrite !getHeader_setHeader. repeat split; reflexivity.
Qed.

(** C9: the injector is idempotent and non-destructive.  Without a
    deprecation marker the headers come back as they are.  With one, a
    second call on the result of the first returns that result, so nothing
    accumulates; names that were distinct stay distinct; every name that was
    there is still there; and every header other than the four the injector
    writes keeps its value. *)
Theorem addDeprecationHeaders_idempotent
    (existingHeaders : Headers) (authResult : AuthResult)
    (sunsetDate : jsstring) :
  let once := inject existingHeaders authResult sunsetDate in
  (deprecation authResult = None -> once = existingHeaders) /\
  inject once authResult sunsetDate = once /\
  (NoDup (names existingHeaders) -> NoDup (names once)) /\
  (forall name, name ∈ names existingHeaders -> name ∈ names once) /\
  (forall name, name ∉ injected ->
     getHeader once name = getHeader existingHeaders name).
Proof.
  intros once. subst once.
  destruct (deprecation authResult) as [marker|] eqn:Hm.
  - destruct (addDeprecationHeaders_written existingHeaders authResult
                sunsetDate marker Hm) as (Hs & Hd & Hl & Hx).
    split; [discriminate | ]. split; [ | split; [ | split]].
    + set (once := inject existingHeaders authResult sunsetDate) in *.
      unfold addDeprecationHeaders at 1. rewrite Hm. cbv zeta.
      rewrite (setHeader_same once _ _ Hs), (setHeader_same once _ _ Hd),
        (setHeader_same once _ _ Hl).
      now apply setHeader_same.
    + intros H. unfold addDeprecationHeaders. rewrite Hm. cbv zeta.
      now repeat apply setHeader_NoDup.
    + intros name H. unfold addDeprecationHeaders. rewrite Hm. cbv zeta.
      now repeat apply setHeader_keeps_names.
    + intros name H. unfold addDeprecationHeaders. rewrite Hm. cbv zeta.
      unfold injected in H.
      repeat (apply not_elem_of_cons in H as [? H]).
      rewrite !getHeader_setHeader.
      repeat (match goal with
              | |- context [str_eqb ?a name] =>
                  let E := fresh in
                  destruct (str_eqb a name) eqn:E;
                  [apply str_eqb_eq in E; congruence | clear E]
              end).
      reflexivity.
  - unfold addDeprecationHeaders. rewrite Hm.
    repeat split; trivial.
Qed.

(** The stub of the first commit is the identity, hence idempotent as
    well; it writes no header at all. *)
Lemma addDeprecationHeadersStub_idempotent
    (headers : Headers) (authResult : AuthResult) (sunsetDate : jsstring) :
  addDeprecationHeadersStub
    (addDeprecationHeadersStub headers authResult sunsetDate)
    authResult sunsetDate
  = addDeprecationHeadersStub headers authResult sunsetDate.
Proof. reflexivity. Qed.

End DeprecationFacts.

(** ** The theorems at the inputs of the test suite *)

Section Witnesses.
Import JsString Authorize.

Lemma authorizeRequest_never_throws_witness :
  authorizeRequest mockSend parseMockSecret noBuiltin
    (eventWith [(js "X-API-Key", js "some-key")])
    (js "/invalid/secret/path") None
  = Returns denied /\
  authorizeRequestWith (fun _ _ => Throws TypeError)
    (eventWith [(js "X-API-Key", js "some-key")])
    (js "/invalid/secret/path") None
  = Returns denied.
Proof.
  destruct (authorizeRequest_never_throws mockSend parseMockSecret noBuiltin
              (eventWith [(js "X-API-Key", js "some-key")])
              (js "/invalid/secret/path") None)
    as (result & Hrun & _ & _ & Hthrows & _ & _ & _ & _ & Hcatch).
  split.
  - rewrite Hrun. f_equal. apply Hthrows. eexists. reflexivity.
  - apply Hcatch. left. eexists. reflexivity.
Defined.

Lemma authorizeRequest_valid_shared_key_witness :
  authorizeRequest mockSendBoth parseMockSecrets noBuiltin
    (eventWith [(js "x-api-key", js "  valid-shared-key-12345  ")])
    (js "/aviary/shared/api-key") None
  = Returns granted /\
  authorizeRequest mockSendBoth parseMockSecrets noBuiltin
    (eventWith [(js "X-API-Key", js "custom-key-value-abc")])
    (js "/aviary/test/custom-key")
    (Some {| sharedKeyName := Some (js "CUSTOM_KEY_NAME") |})
  = Returns granted /\
  authorizeRequest mockSendBoth parseMockSecrets noBuiltin
    (eventWith [(js "X-API-Key", js "valid-shared-key-12345")])
    (js "/aviary/shared/api-key")
    (Some {| sharedKeyName := None |})
  = Returns granted.
Proof.
  split; [ | split].
  - apply (authorizeRequest_valid_shared_key
             mockSendBoth parseMockSecrets noBuiltin
             _ _ None (js "x-api-key") (js "  valid-shared-key-12345  ")).
    + now right.
    + vm_compute. reflexivity.
    + intros upper lower Hupper. vm_compute in Hupper. discriminate.
    + vm_compute. discriminate.
    + vm_compute. reflexivity.
  - apply (authorizeRequest_valid_shared_key
             mockSendBoth parseMockSecrets noBuiltin
             _ _ (Some {| sharedKeyName := Some (js "CUSTOM_KEY_NAME") |})
             (js "X-API-Key") (js "custom-key-value-abc")).
    + now left.
    + vm_compute. reflexivity.
    + intros upper lower _ Hlower. vm_compute in Hlower. discriminate.
    + vm_compute. discriminate.
    + vm_compute. reflexivity.
  - apply (authorizeRequest_valid_shared_key
             mockSendBoth parseMockSecrets noBuiltin
             _ _ (Some {| sharedKeyName := None |})
             (js "X-API-Key") (js "valid-shared-key-12345")).
    + now left.
    + vm_compute. reflexivity.
    + intros upper lower _ Hlower. vm_compute in Hlower. discriminate.
    + vm_compute. discriminate.
    + vm_compute. reflexivity.
Defined.

Lemma authorizeRequest_blank_credential_witness :
  authorizeRequest mockSend parseMockSecret noBuiltin
    (eventWith [(js "X-API-Key", [32; 32; 32; 9; 10; 32; 32; 32])])
    (js "/aviary/shared/api-key") None
  = Returns denied.
Proof.
  apply (authorizeRequest_blank_credential mockSend parseMockSecret noBuiltin
           _ _ _ (js "X-API-Key") [32; 32; 32; 9; 10; 32; 32; 32]).
  - now left.
  - vm_compute. reflexivity.
  - intros upper lower _ Hlower. vm_compute in Hlower. discriminate.
  - repeat constructor.
Defined.

Lemma authResult_method_none_iff_unauthorized_witness :
  method granted = none <-> authorized granted = false.
Proof.
  apply (authResult_method_none_iff_unauthorized
           mockSend parseMockSecret noBuiltin
           (eventWith [(js "X-API-Key", js "valid-shared-key-12345")])
           (js "/aviary/shared/api-key") None granted).
  vm_compute. reflexivity.
Defined.

Lemma authorizeRequest_no_legacy_branch_witness :
  authorizeRequest mockSend parseMockSecret noBuiltin
    {| headers := Some {[ js "Authorization" := js "Bearer some-token" ]};
       apiKeyId := Some (js "some-api-gateway-key") |}
    (js "/aviary/shared/api-key") None
  = Returns denied.
Proof.
  destruct (authorizeRequest_no_legacy_branch
              mockSend parseMockSecret noBuiltin
              (eventWith []) (js "/aviary/shared/api-key") None)
    as (result & Hrun & _ & _ & _ & _ & Hsame).
  rewrite (Hsame {| headers := Some {[ js "Authorization" := js "Bearer some-token" ]};
                    apiKeyId := Some (js "some-api-gateway-key") |});
    [ | vm_compute; reflexivity | vm_compute; reflexivity].
  rewrite <- Hrun. vm_compute. reflexivity.
Defined.

Lemma addDeprecationHeaders_idempotent_witness :
  let existing := [(js "Content-Type", js "application/json")] in
  let once :=
    Deprecation.addDeprecationHeaders Deprecation.exampleHttpDate existing
      Deprecation.legacyBearerResult (js "2025-06-15T14:30:00Z") in
  once = [(js "Content-Type", js "application/json");
          (js "Sunset", js "Sun, 15 Jun 2025 14:30:00 GMT");
          (js "Deprecation", js "true");
          (js "Link", Deprecation.linkValue);
          (js "X-Auth-Method", js "legacy-bearer")] /\
  NoDup (Deprecation.names once) /\
  Deprecation.addDeprecationHeaders Deprecation.exampleHttpDate existing
    (Deprecation.ofShipped granted) (js "2025-06-15T14:30:00Z") = existing.
Proof.
  intros existing once.
  destruct (addDeprecationHeaders_idempotent Deprecation.exampleHttpDate
              existing Deprecation.legacyBearerResult
              (js "2025-06-15T14:30:00Z")) as (_ & _ & Hnodup & _).
  destruct (addDeprecationHeaders_idempotent Deprecation.exampleHttpDate
              existing (Deprecation.ofShipped granted)
              (js "2025-06-15T14:30:00Z")) as (Hnone & _).
  split; [reflexivity | split].
  - apply Hnodup. apply NoDup_singleton.
  - apply Hnone. reflexivity.
Defined.

End Witnesses.

(** ** Further properties of the path functions *)

Section PathNormalizationMore.
Import JsString PathNormalization.

Ltac slashes := change (js "/") with [47] in *; cbn [app] in *.

Ltac by_length H :=
  exfalso; apply (f_equal (@length N)) in H;
  repeat (rewrite ?length_app, ?length_cons in H; cbn [length js List.map
            list_ascii_of_string] in H);
  lia.

Lemma normalizeApiPath_segment (s rest : jsstring) :
  s <> [] ->
  normalizeApiPath (js "/" ++ s ++ js "/" ++ rest) s = js "/" ++ rest.
Proof.
  intros Hs.
  destruct (normalizeApiPath_case (js "/" ++ s ++ js "/" ++ rest) s)
    as [E|_ E|_ _ E|rest0 _ _ E|_ _ _ E];
    change (withLeadingSlash (js "/" ++ s ++ js "/" ++ rest))
      with (js "/" ++ s ++ js "/" ++ rest) in *.
  - discriminate.
  - contradiction.
  - by_length E.
  - slashes. injection E as E. apply app_inv_head in E. now injection E as ->.
  - now destruct (E rest).
Qed.

(** X1: whatever the arguments, the result of [normalizeApiPath] begins
    with ['/']. *)
Theorem normalizeApiPath_starts_with_slash (rawPath servicePrefix : jsstring) :
  startsWith (normalizeApiPath rawPath servicePrefix) (js "/") = true.
Proof.
  destruct (normalizeApiPath_head rawPath servicePrefix) as [tl ->].
  reflexivity.
Qed.

(** X2: the leading slash of the path is optional: a path without it is
    normalised like the same path with it. *)
Theorem normalizeApiPath_leading_slash_optional
    (rawPath servicePrefix : jsstring) :
  normalizeApiPath (withLeadingSlash rawPath) servicePrefix
  = normalizeApiPath rawPath servicePrefix.
Proof.
  destruct rawPath as [|c p].
  - change (withLeadingSlash []) with [47].
    destruct (normalizeApiPath_case [47] servicePrefix)
      as [E|_ E|_ _ E|rest _ Hs E|_ _ _ _];
      change (withLeadingSlash [47]) with [47] in *; try reflexivity.
    by_length E.
  - destruct (withLeadingSlash_head (c :: p)) as [tl Htl].
    unfold normalizeApiPath. fold (withLeadingSlash (c :: p)).
    rewrite Htl. cbn [is_empty]. fold (withLeadingSlash (47 :: tl)).
    now rewrite withLeadingSlash_fixed.
Qed.

(** X3: normalisation and version extraction compose: on a gateway path
    ['/' + service + '/v' + digits + '/' + rest], [extractApiVersion] of the
    normalised path is ['v' + digits], and [isValidApiVersion] compares
    exactly that with the expected version. *)
Theorem extractApiVersion_after_normalizeApiPath
    (servicePrefix digits rest : jsstring) (expectedVersion : option jsstring) :
  servicePrefix <> [] ->
  digits <> [] ->
  Forall (fun c => isDigit c = true) digits ->
  let rawPath :=
    js "/" ++ servicePrefix ++ js "/v" ++ digits ++ js "/" ++ rest in
  extractApiVersion (normalizeApiPath rawPath servicePrefix)
    = Some (js "v" ++ digits) /\
  isValidApiVersion (normalizeApiPath rawPath servicePrefix) expectedVersion
    = str_eqb (js "v" ++ digits) (default (js "v1") expectedVersion).
Proof.
  intros Hs Hne Hd rawPath. subst rawPath.
  change (js "/" ++ servicePrefix ++ js "/v" ++ digits ++ js "/" ++ rest)
    with (js "/" ++ servicePrefix ++ js "/" ++ (js "v" ++ digits ++ js "/" ++ rest)).
  rewrite normalizeApiPath_segment by assumption.
  assert (Hm : matchVersion (js "/" ++ js "v" ++ digits ++ js "/" ++ rest)
               = Some digits).
  { apply matchVersion_spec. split; [assumption | split; [assumption | ]].
    now exists rest. }
  unfold isValidApiVersion, extractApiVersion. rewrite Hm. split; reflexivity.
Qed.

(** X4: a path that carries a version is valid for that one version only:
    if a path is valid against two different expected versions, it carries
    no version at all. *)
Theorem isValidApiVersion_two_versions
    (path expectedA expectedB : jsstring) :
  isValidApiVersion path (Some expectedA) = true ->
  isValidApiVersion path (Some expectedB) = true ->
  expectedA <> expectedB ->
  extractApiVersion path = None.
Proof.
  unfold isValidApiVersion.
  change (default (js "v1") (Some expectedA)) with expectedA.
  change (default (js "v1") (Some expectedB)) with expectedB.
  destruct (extractApiVersion path) as [v|]; [ | reflexivity].
  intros Ha Hb Hne. apply str_eqb_eq in Ha. apply str_eqb_eq in Hb.
  exfalso. apply Hne. now rewrite <- Ha, <- Hb.
Qed.

End PathNormalizationMore.

(** ** Further properties of the authorizer *)

Section AuthorizeMore.
Import JsString Authorize.

Lemma trimEnd_cons_kept (c : N) (s : jsstring) :
  isWhiteSpace c = false -> trimEnd (c :: s) = c :: trimEnd s.
Proof.
  intros Hc. cbn [trimEnd]. destruct (trimEnd s); [now rewrite Hc | reflexivity].
Qed.

Lemma trimEnd_idempotent (s : jsstring) : trimEnd (trimEnd s) = trimEnd s.
Proof.
  induction s as [|c s IH]; [reflexivity | ].
  cbn [trimEnd]. destruct (trimEnd s) as [|d t] eqn:E.
  - destruct (isWhiteSpace c) eqn:Ec; [reflexivity | ].
    cbn [trimEnd]. now rewrite Ec.
  - cbn [trimEnd]. cbn [trimEnd] in IH. rewrite IH.
    destruct (match trimEnd t with
              | [] => if isWhiteSpace d then [] else [d]
              | n :: l => d :: n :: l
              end) eqn:E'; [discriminate | reflexivity].
Qed.

(** [trim] leaves a trimmed string alone. *)
Lemma trim_idempotent (s : jsstring) : trim (trim s) = trim s.
Proof.
  unfold trim. destruct (trimStart s) as [|c t] eqn:E; [reflexivity | ].
  pose proof (trimStart_head s c t E) as Hc.
  rewrite (trimEnd_cons_kept c t Hc). cbn [trimStart]. rewrite Hc.
  rewrite (trimEnd_cons_kept c _ Hc). now rewrite trimEnd_idempotent.
Qed.

Context (send : jsstring -> outcome GetSecretValueResponse)
        (JSON_parse : jsstring -> outcome value)
        (builtin_member : value -> jsstring -> value).

Local Abbreviation getSecret := (getSecretValue send JSON_parse builtin_member).
Local Abbreviation authorize := (authorizeRequest send JSON_parse builtin_member).
Local Abbreviation credential event :=
  (or_else (header event (js "X-API-Key")) (header event (js "x-api-key"))).

(** X5: [getSecretValue] never rejects, and what it resolves to is [null]
    or a truthy value: a key whose stored value is falsy (the empty string,
    zero, [false], [null]) reads as [null], like a key that is missing. *)
Theorem getSecretValue_null_or_truthy (secretPath key : jsstring) :
  (exists v, getSecret secretPath key = Returns v /\
             (v = VNull \/ truthy v = true)) /\
  (forall response text secrets x,
     send secretPath = Returns response ->
     SecretString response = Some text -> text <> [] ->
     JSON_parse text = Returns secrets ->
     member builtin_member secrets key = Returns x ->
     truthy x = false ->
     getSecret secretPath key = Returns VNull).
Proof.
  split.
  - unfold getSecretValue.
    destruct (send secretPath) as [[[text|]]|e]; cbn;
      try (eexists; split; [reflexivity | now left]).
    destruct (is_empty text); cbn;
      try (eexists; split; [reflexivity | now left]).
    destruct (JSON_parse text) as [secrets|e]; cbn;
      try (eexists; split; [reflexivity | now left]).
    destruct (member builtin_member secrets key) as [x|e]; cbn;
      try (eexists; split; [reflexivity | now left]).
    destruct (truthy x) eqn:E; eexists; (split; [reflexivity | ]);
      [now right | now left].
  - intros response text secrets x Hsend Htext Hne Hparse Hmem Hx.
    unfold getSecretValue. rewrite Hsend. cbn. rewrite Htext.
    apply is_empty_false in Hne. rewrite Hne. rewrite Hparse. cbn.
    rewrite Hmem. cbn. now rewrite Hx.
Qed.

(** X6: the lookup finds what the secret holds: when the store answers
    with a text that parses to an object in which the key is bound to a
    non-empty string, [getSecretValue] resolves to that string, whatever
    the object inherits. *)
Theorem getSecretValue_found
    (secretPath key text stored : jsstring) (response : GetSecretValueResponse)
    (props : list (jsstring * value)) :
  send secretPath = Returns response ->
  SecretString response = Some text -> text <> [] ->
  JSON_parse text = Returns (VObject props) ->
  own_property props key = Some (VString stored) -> stored <> [] ->
  getSecret secretPath key = Returns (VString stored).
Proof.
  intros Hsend Htext Hne Hparse Hown Hstored.
  unfold getSecretValue. rewrite Hsend. cbn. rewrite Htext.
  apply is_empty_false in Hne. rewrite Hne. rewrite Hparse. cbn.
  rewrite Hown. cbn. apply is_empty_false in Hstored. now rewrite Hstored.
Qed.

(** X7: every failure of the lookup ends in [null]: the store rejecting,
    a secret without a text or with an empty one, a text that is not JSON,
    and a text that parses to [null]. *)
Theorem getSecretValue_failure_is_null (secretPath key : jsstring) :
  ((exists e, send secretPath = Throws e) ->
     getSecretValue send JSON_parse builtin_member secretPath key = Returns VNull) /\
  (forall response,
     send secretPath = Returns response ->
     SecretString response = None \/ SecretString response = Some [] ->
     getSecretValue send JSON_parse builtin_member secretPath key = Returns VNull) /\
  (forall response text e,
     send secretPath = Returns response ->
     SecretString response = Some text ->
     JSON_parse text = Throws e ->
     getSecretValue send JSON_parse builtin_member secretPath key = Returns VNull) /\
  (forall response text,
     send secretPath = Returns response ->
     SecretString response = Some text ->
     JSON_parse text = Returns VNull ->
     getSecretValue send JSON_parse builtin_member secretPath key = Returns VNull).
Proof.
  unfold getSecretValue. split; [ | split; [ | split]].
  - now intros [e ->].
  - intros response -> Hs. cbn. destruct Hs as [-> | ->]; reflexivity.
  - intros response text e -> Hs Hparse. cbn. rewrite Hs.
    destruct (is_empty text); [reflexivity | ]. now rewrite Hparse.
  - intros response text -> Hs Hparse. cbn. rewrite Hs.
    destruct (is_empty text); [reflexivity | ]. now rewrite Hparse.
Qed.

(** X8: the stored secret is compared as it is, while the credential is
    trimmed first.  A stored string with white space at either end (a
    trailing newline, say) therefore matches no credential: every request
    is denied. *)
Theorem authorizeRequest_untrimmed_secret
    (event : APIGatewayProxyEvent) (secretPath stored : jsstring)
    (options : option Options) :
  getSecret secretPath (keyNameOf options) = Returns (VString stored) ->
  trim stored <> stored ->
  authorize event secretPath options = Returns denied.
Proof.
  intros Hs Hne.
  destruct (authorizeRequest_total send JSON_parse builtin_member
              event secretPath options) as [H | H]; [ | exact H].
  apply authorizeRequest_granted_iff in H as (k & _ & _ & Hk).
  rewrite Hs in Hk. injection Hk as ->. now rewrite trim_idempotent in Hne.
Qed.

(** X9: white space around the credential never changes the decision: two
    requests whose credentials agree once trimmed get the same result. *)
Theorem authorizeRequest_trim_invariant
    (event1 event2 : APIGatewayProxyEvent) (key1 key2 secretPath : jsstring)
    (options : option Options) :
  credential event1 = Some key1 ->
  credential event2 = Some key2 ->
  trim key1 = trim key2 ->
  authorize event1 secretPath options = authorize event2 secretPath options.
Proof.
  intros H1 H2 Ht. rewrite !authorizeRequest_unfold, H1, H2, Ht. reflexivity.
Qed.

(** X10: ['X-API-Key'] goes first.  When it holds a non-empty value, that
    value alone decides and ['x-api-key'] is not read: any two such events
    get the same result, and a value of white space only is denied even
    beside a valid ['x-api-key']. *)
Theorem authorizeRequest_upper_header_decides
    (event : APIGatewayProxyEvent) (value secretPath : jsstring)
    (options : option Options) :
  header event (js "X-API-Key") = Some value -> value <> [] ->
  (forall event',
     header event' (js "X-API-Key") = Some value ->
     authorize event' secretPath options = authorize event secretPath options) /\
  (Forall (fun c => isWhiteSpace c = true) value ->
     authorize event secretPath options = Returns denied).
Proof.
  intros Hh Hv. split.
  - intros event' Hh'. rewrite !authorizeRequest_unfold.
    cbn [or_else]. rewrite Hh, Hh'. apply is_empty_false in Hv.
    cbn [or_else]. now rewrite Hv.
  - intros Hblank. apply trim_nil_iff in Hblank.
    rewrite authorizeRequest_unfold. rewrite Hh. cbn [or_else].
    apply is_empty_false in Hv. rewrite Hv. now rewrite Hblank.
Qed.

(** X11: an empty ['X-API-Key'] counts as an absent one: the decision is
    then the one ['x-api-key'] alone would get. *)
Theorem authorizeRequest_empty_upper_header_falls_back
    (event event' : APIGatewayProxyEvent) (secretPath : jsstring)
    (options : option Options) :
  header event (js "X-API-Key") = Some [] ->
  header event' (js "X-API-Key") = None ->
  header event' (js "x-api-key") = header event (js "x-api-key") ->
  authorize event secretPath options = authorize event' secretPath options.
Proof.
  intros Hu Hu' Hl. rewrite !authorizeRequest_unfold, Hu, Hu', Hl. reflexivity.
Qed.

End AuthorizeMore.

(** ** The health check handler *)

Section HealthFacts.
Import JsString Health.

Lemma filter_length_all {A} (f : A -> bool) (l : list A) :
  length (List.filter f l) = length l <-> forall x, x ∈ l -> f x = true.
Proof.
  induction l as [|a l IH]; cbn [List.filter length].
  - split; [intros _ x Hx; now apply elem_of_nil in Hx | reflexivity].
  - pose proof (filter_length_le f l) as Hle.
    destruct (f a) eqn:Ea; cbn [length].
    + split.
      * intros H x Hx. apply elem_of_cons in Hx as [-> | Hx]; [exact Ea | ].
        apply IH; [lia | exact Hx].
      * intros H. f_equal. apply IH. intros x Hx. apply H.
        apply elem_of_cons. now right.
    + split; [lia | ]. intros H.
      rewrite (H a) in Ea; [discriminate | apply elem_of_cons; now left].
Qed.

Lemma filter_length_pos {A} (f : A -> bool) (l : list A) :
  (0 < length (List.filter f l))%nat <-> exists x, x ∈ l /\ f x = true.
Proof.
  induction l as [|a l IH]; cbn [List.filter length].
  - split; [lia | intros (x & Hx & _); now apply elem_of_nil in Hx].
  - destruct (f a) eqn:Ea; cbn [length].
    + split; [intros _ | lia]. exists a. split; [apply elem_of_cons; now left | exact Ea].
    + rewrite IH. split.
      * intros (x & Hx & Hf). exists x. split; [apply elem_of_cons; now right | exact Hf].
      * intros (x & Hx & Hf). apply elem_of_cons in Hx as [-> | Hx]; [congruence | ].
        now exists x.
Qed.

Lemma isUnhealthy_true (d : DependencyStatus) :
  isUnhealthy d = true <-> dep_status d = dep_unhealthy.
Proof. unfold isUnhealthy. destruct (dep_status d); split; congruence. Qed.

Lemma isUnhealthy_false (d : DependencyStatus) :
  isUnhealthy d = false <-> dep_status d = dep_healthy.
Proof. unfold isUnhealthy. destruct (dep_status d); split; congruence. Qed.

(** The status that the handler computes from a non-empty list of
    dependency statuses. *)
Lemma healthResponse_with_dependencies
    (config : HealthCheckConfig) (w : World)
    (dep : HealthCheckDependency) (deps : list HealthCheckDependency) :
  dependencies config = Some (dep :: deps) ->
  let statuses :=
    imap (fun call d => checkDependency w call d (regionOf w)) (dep :: deps) in
  let unhealthyCount := length (List.filter isUnhealthy statuses) in
  res_dependencies (healthResponse config w) = Some statuses /\
  status (healthResponse config w) =
    if (unhealthyCount =? length statuses)%nat then unhealthy
    else if (0 <? unhealthyCount)%nat then degraded else healthy.
Proof.
  intros Hd. unfold healthResponse. rewrite Hd. split; reflexivity.
Qed.

Lemma healthResponse_without_dependencies
    (config : HealthCheckConfig) (w : World) :
  dependencies config = None \/ dependencies config = Some [] ->
  res_dependencies (healthResponse config w) = None /\
  status (healthResponse config w) = healthy.
Proof.
  intros [Hd | Hd]; unfold healthResponse; rewrite Hd; split; reflexivity.
Qed.

Lemma all_statuses_iff
    (w : World) (deps : list HealthCheckDependency)
    (P : DependencyStatus -> Prop) :
  (forall x, x ∈ imap (fun call d => checkDependency w call d (regionOf w)) deps
             -> P x) <->
  (forall call d, deps !! call = Some d ->
                  P (checkDependency w call d (regionOf w))).
Proof.
  split.
  - intros H call d Hl. apply H.
    apply (elem_of_lookup_imap_2
             (fun call d => checkDependency w call d (regionOf w))).
    exact Hl.
  - intros H x Hx. apply elem_of_lookup_imap in Hx as (call & d & -> & Hl).
    now apply H.
Qed.

Lemma some_status_iff
    (w : World) (deps : list HealthCheckDependency)
    (P : DependencyStatus -> Prop) :
  (exists x, x ∈ imap (fun call d => checkDependency w call d (regionOf w)) deps
             /\ P x) <->
  (exists call d, deps !! call = Some d /\
                  P (checkDependency w call d (regionOf w))).
Proof.
  split.
  - intros (x & Hx & HP). apply elem_of_lookup_imap in Hx as (call & d & -> & Hl).
    now exists call, d.
  - intros (call & d & Hl & HP). eexists. split; [ | exact HP].
    apply (elem_of_lookup_imap_2
             (fun call d => checkDependency w call d (regionOf w))).
    exact Hl.
Qed.

Lemma filter_length_lt {A} (f : A -> bool) (l : list A) :
  (length (List.filter f l) < length l)%nat <-> exists x, x ∈ l /\ f x = false.
Proof.
  induction l as [|a l IH]; cbn [List.filter length].
  - split; [lia | intros (x & Hx & _); now apply elem_of_nil in Hx].
  - pose proof (filter_length_le f l) as Hle.
    destruct (f a) eqn:Ea; cbn [length].
    + rewrite <- Nat.succ_lt_mono, IH. split.
      * intros (x & Hx & Hf). exists x. split; [apply elem_of_cons; now right | exact Hf].
      * intros (x & Hx & Hf). apply elem_of_cons in Hx as [-> | Hx]; [congruence | ].
        now exists x.
    + split; [intros _ | lia]. exists a. split; [apply elem_of_cons; now left | exact Ea].
Qed.

(** X12: the handler answers 503 exactly when at least one dependency is
    configured and every one of them is unhealthy; in every other case,
    also when only some dependencies fail, it answers 200. *)
Theorem createHealthHandler_status_code
    (config : HealthCheckConfig) (w : World) :
  let result := createHealthHandler config w in
  (statusCode result = 503%Z \/ statusCode result = 200%Z) /\
  (statusCode result = 503%Z <->
     exists deps,
       dependencies config = Some deps /\ deps <> [] /\
       forall call dep,
         deps !! call = Some dep ->
         dep_status (checkDependency w call dep (regionOf w)) = dep_unhealthy).
Proof.
  intros result. subst result. unfold createHealthHandler. cbn [statusCode].
  destruct (dependencies config) as [[|dep deps]|] eqn:Hd.
  - destruct (healthResponse_without_dependencies config w) as [_ ->];
      [now right | ].
    split; [now right | ]. split; [discriminate | ].
    intros (deps & [= <-] & Hne & _). contradiction.
  - destruct (healthResponse_with_dependencies config w dep deps Hd)
      as [_ Hs]. cbv zeta in Hs. rewrite Hs. clear Hs.
    set (statuses := imap _ (dep :: deps)).
    destruct (length (List.filter isUnhealthy statuses) =? length statuses)%nat
      eqn:E.
    + split; [now left | ]. split; [intros _ | reflexivity].
      exists (dep :: deps). split; [reflexivity | split; [discriminate | ]].
      apply Nat.eqb_eq in E.
      pose proof (proj1 (filter_length_all isUnhealthy statuses) E) as Hall.
      apply (all_statuses_iff w (dep :: deps)
               (fun x => dep_status x = dep_unhealthy)).
      intros x Hx. apply isUnhealthy_true. now apply Hall.
    + assert (Hnot : ~ forall call d,
                (dep :: deps) !! call = Some d ->
                dep_status (checkDependency w call d (regionOf w))
                = dep_unhealthy).
      { intros H. apply Nat.eqb_neq in E. apply E. apply filter_length_all.
        intros x Hx. apply isUnhealthy_true. revert x Hx.
        apply (all_statuses_iff w (dep :: deps)
                 (fun x => dep_status x = dep_unhealthy)). exact H. }
      destruct (0 <? length (List.filter isUnhealthy statuses))%nat;
        (split; [now right | ]); (split; [discriminate | ]);
        intros (deps' & [= <-] & _ & H); contradiction.
  - destruct (healthResponse_without_dependencies config w) as [_ ->];
      [now left | ].
    split; [now right | ]. split; [discriminate | ].
    intros (deps & Hdeps & _). discriminate.
Qed.

(** X13: with dependencies configured, the overall status is ['unhealthy']
    when all of them are unhealthy, ['healthy'] when none is, and
    ['degraded'] when some are and some are not. *)
Theorem healthResponse_status
    (config : HealthCheckConfig) (w : World)
    (deps : list HealthCheckDependency) :
  dependencies config = Some deps -> deps <> [] ->
  let statusAt call dep :=
    dep_status (checkDependency w call dep (regionOf w)) in
  (status (healthResponse config w) = unhealthy <->
     forall call dep, deps !! call = Some dep ->
                      statusAt call dep = dep_unhealthy) /\
  (status (healthResponse config w) = healthy <->
     forall call dep, deps !! call = Some dep ->
                      statusAt call dep = dep_healthy) /\
  (status (healthResponse config w) = degraded <->
     (exists call dep, deps !! call = Some dep /\
                       statusAt call dep = dep_unhealthy) /\
     (exists call dep, deps !! call = Some dep /\
                       statusAt call dep = dep_healthy)).
Proof.
  intros Hd Hne statusAt. subst statusAt.
  destruct deps as [|dep deps]; [contradiction | ].
  destruct (healthResponse_with_dependencies config w dep deps Hd) as [_ Hs].
  cbv zeta in Hs. rewrite Hs. clear Hs.
  set (statuses := imap _ (dep :: deps)).
  pose proof (filter_length_le isUnhealthy statuses) as Hle.
  assert (Hlen : (0 < length statuses)%nat).
  { unfold statuses. rewrite length_imap. cbn. lia. }
  pose proof (filter_length_all isUnhealthy statuses) as Hall.
  pose proof (filter_length_pos isUnhealthy statuses) as Hpos.
  pose proof (filter_length_lt isUnhealthy statuses) as Hlt.
  pose proof (all_statuses_iff w (dep :: deps)
                (fun x => dep_status x = dep_unhealthy)) as Au.
  pose proof (all_statuses_iff w (dep :: deps)
                (fun x => dep_status x = dep_healthy)) as Ah.
  pose proof (some_status_iff w (dep :: deps)
                (fun x => dep_status x = dep_unhealthy)) as Su.
  pose proof (some_status_iff w (dep :: deps)
                (fun x => dep_status x = dep_healthy)) as Sh.
  fold statuses in Au, Ah, Su, Sh.
  assert (Hall' : length (List.filter isUnhealthy statuses) = length statuses
                  <-> forall x, x ∈ statuses -> dep_status x = dep_unhealthy).
  { rewrite Hall. split; intros H x Hx; apply isUnhealthy_true; now apply H. }
  assert (Hpos' : (0 < length (List.filter isUnhealthy statuses))%nat
                  <-> exists x, x ∈ statuses /\ dep_status x = dep_unhealthy).
  { rewrite Hpos. split; intros (x & Hx & H); exists x; (split; [exact Hx | ]);
      now apply isUnhealthy_true. }
  assert (Hlt' : (length (List.filter isUnhealthy statuses) < length statuses)%nat
                 <-> exists x, x ∈ statuses /\ dep_status x = dep_healthy).
  { rewrite Hlt. split; intros (x & Hx & H); exists x; (split; [exact Hx | ]);
      now apply isUnhealthy_false. }
  assert (Hzero' : length (List.filter isUnhealthy statuses) = 0%nat
                   <-> forall x, x ∈ statuses -> dep_status x = dep_healthy).
  { split.
    - intros H0 x Hx. destruct (dep_status x) eqn:Ex; [reflexivity | ].
      exfalso. assert (Hex : exists x, x ∈ statuses /\
                                       dep_status x = dep_unhealthy)
        by now exists x.
      apply Hpos' in Hex. lia.
    - intros H.
      destruct (Nat.eq_dec (length (List.filter isUnhealthy statuses)) 0%nat)
        as [H0 | H0]; [exact H0 | exfalso].
      assert (Hp : (0 < length (List.filter isUnhealthy statuses))%nat) by lia.
      apply Hpos' in Hp as (x & Hx & Hu). rewrite (H x Hx) in Hu.
      discriminate. }
  rewrite <- Au, <- Ah, <- Su, <- Sh, <- Hall', <- Hpos', <- Hlt', <- Hzero'.
  destruct (length (List.filter isUnhealthy statuses) =? length statuses)%nat
    eqn:E; [apply Nat.eqb_eq in E | apply Nat.eqb_neq in E].
  - repeat split; try discriminate; intros; lia.
  - destruct (0 <? length (List.filter isUnhealthy statuses))%nat eqn:E0;
      [apply Nat.ltb_lt in E0 | apply Nat.ltb_ge in E0];
      repeat split; try discriminate; intros; lia.
Qed.

Lemma checkDependency_copies
    (w : World) (call : nat) (dep : HealthCheckDependency) (region : jsstring) :
  dep_name (checkDependency w call dep region) = name dep /\
  dep_type (checkDependency w call dep region) = type dep /\
  dep_resource (checkDependency w call dep region) = resource dep.
Proof.
  unfold checkDependency. destruct (probe w call dep region); repeat split.
Qed.

(** X14: the response reports the dependencies one for one and in the order
    of the configuration, each under its own name, type and resource; the
    field is left out when no dependency is configured or the list is
    empty, and the service is then healthy. *)
Theorem healthResponse_lists_dependencies
    (config : HealthCheckConfig) (w : World) :
  match dependencies config with
  | Some (dep :: deps) =>
      exists statuses,
        res_dependencies (healthResponse config w) = Some statuses /\
        List.map dep_name statuses = List.map name (dep :: deps) /\
        List.map dep_type statuses = List.map type (dep :: deps) /\
        List.map dep_resource statuses = List.map resource (dep :: deps)
  | _ =>
      res_dependencies (healthResponse config w) = None /\
      status (healthResponse config w) = healthy
  end.
Proof.
  destruct (dependencies config) as [[|dep deps]|] eqn:Hd.
  - apply healthResponse_without_dependencies. now right.
  - destruct (healthResponse_with_dependencies config w dep deps Hd) as [Hr _].
    cbv zeta in Hr. eexists. split; [exact Hr | ].
    repeat split.
    + change (List.map dep_name ?l) with (dep_name <$> l).
      rewrite fmap_imap.
      rewrite (imap_ext _ (const name)); [apply imap_const | ].
      intros i x _. apply checkDependency_copies.
    + change (List.map dep_type ?l) with (dep_type <$> l).
      rewrite fmap_imap.
      rewrite (imap_ext _ (const type)); [apply imap_const | ].
      intros i x _. apply checkDependency_copies.
    + change (List.map dep_resource ?l) with (dep_resource <$> l).
      rewrite fmap_imap.
      rewrite (imap_ext _ (const resource)); [apply imap_const | ].
      intros i x _. apply checkDependency_copies.
  - apply healthResponse_without_dependencies. now left.
Qed.

(** X15: a dependency without a custom check whose type is ['custom'], or
    whose resource is missing or empty, is reported unhealthy with the
    error ['Invalid dependency configuration: ' + name] and without a
    response time; no client is asked. *)
Theorem checkDependency_invalid_configuration
    (w : World) (call : nat) (dep : HealthCheckDependency) (region : jsstring) :
  check dep = None ->
  type dep = custom \/ resource dep = None \/ resource dep = Some [] ->
  checkDependency w call dep region =
  {| dep_name := name dep;
     dep_type := type dep;
     dep_status := dep_unhealthy;
     dep_resource := resource dep;
     dep_error := Some (js "Invalid dependency configuration: " ++ name dep);
     dep_responseTime := None |}.
Proof.
  intros Hc H. unfold checkDependency, probe. rewrite Hc.
  destruct H as [Ht | [Hr | Hr]].
  - rewrite Ht. destruct (usable (resource dep)); reflexivity.
  - rewrite Hr. cbn [usable]. destruct (type dep); reflexivity.
  - rewrite Hr. cbn [usable is_empty]. destruct (type dep); reflexivity.
Qed.

(** X16: a custom check, when given, is the only thing consulted, whatever
    the type and the resource say: the status is the same in every world,
    for every region, and is healthy exactly when the check resolved to
    [true]. *)
Theorem checkDependency_custom_check_only
    (w w' : World) (call call' : nat) (dep : HealthCheckDependency)
    (region region' : jsstring) (outcome : settled bool) (elapsed : Z) :
  check dep = Some (outcome, elapsed) ->
  checkDependency w call dep region = checkDependency w' call' dep region' /\
  (dep_status (checkDependency w call dep region) = dep_healthy <->
     outcome = Resolves true).
Proof.
  intros Hc. unfold checkDependency, probe. rewrite Hc.
  split; [reflexivity | ].
  destruct outcome as [[|]|e]; cbn; split; congruence.
Qed.

(** X17: a dependency is reported healthy only when its probe succeeded:
    the custom check resolved to [true], the table is ['ACTIVE'], or the
    bucket or queue request resolved. *)
Theorem checkDependency_healthy_iff
    (w : World) (call : nat) (dep : HealthCheckDependency) (region : jsstring) :
  dep_status (checkDependency w call dep region) = dep_healthy <->
  (exists elapsed, check dep = Some (Resolves true, elapsed)) \/
  (check dep = None /\
   exists r, usable (resource dep) = Some r /\
     ((type dep = dynamodb /\
       exists elapsed,
         describeTable w call r region
         = (Resolves (Some (js "ACTIVE")), elapsed)) \/
      (type dep = s3 /\
       exists elapsed, headBucket w call r region = (Resolves tt, elapsed)) \/
      (type dep = sqs /\
       exists elapsed,
         getQueueAttributes w call r region = (Resolves tt, elapsed)))).
Proof.
  split.
  - unfold checkDependency, probe.
    destruct (check dep) as [[outcome elapsed]|] eqn:Hc.
    + destruct outcome as [[|]|e]; cbn; try discriminate.
      intros _. left. now exists elapsed.
    + intros H. right. split; [reflexivity | ].
      destruct (usable (resource dep)) as [r|] eqn:Hr.
      * exists r. split; [reflexivity | ].
        destruct (type dep) eqn:Ht.
        -- left. split; [reflexivity | ]. unfold checkDynamoDBTable in H.
           destruct (describeTable w call r region) as [[st|e] t] eqn:Hq;
             [ | discriminate H].
           destruct (bool_decide (st = Some (js "ACTIVE"))) eqn:Es;
             [ | discriminate H].
           apply bool_decide_eq_true in Es. subst st. now exists t.
        -- right; left. split; [reflexivity | ]. unfold checkS3Bucket in H.
           destruct (headBucket w call r region) as [[[]|e] t] eqn:Hq;
             [ | discriminate H].
           now exists t.
        -- right; right. split; [reflexivity | ]. unfold checkSQSQueue in H.
           destruct (getQueueAttributes w call r region) as [[[]|e] t] eqn:Hq;
             [ | discriminate H].
           now exists t.
        -- discriminate H.
      * exfalso. destruct (type dep); discriminate H.
  - intros [(elapsed & Hc) | (Hc & r & Hr & H)];
      unfold checkDependency, probe; rewrite Hc; [reflexivity | ].
    rewrite Hr.
    destruct H as [(-> & t & Hq) | [(-> & t & Hq) | (-> & t & Hq)]].
    + unfold checkDynamoDBTable. rewrite Hq.
      rewrite bool_decide_eq_true_2; reflexivity.
    + unfold checkS3Bucket. now rewrite Hq.
    + unfold checkSQSQueue. now rewrite Hq.
Qed.

Lemma probe_healthy_no_error
    (w : World) (call : nat) (dep : HealthCheckDependency) (region : jsstring)
    (result : CheckResult) :
  probe w call dep region = Resolves result ->
  is_healthy result = true -> error result = None.
Proof.
  unfold probe. destruct (check dep) as [[[b|e] t]|].
  - now intros [= <-].
  - discriminate.
  - destruct (type dep), (usable (resource dep)) as [r|]; try discriminate;
      intros [= <-].
    + unfold checkDynamoDBTable.
      destruct (describeTable w call r region) as [[st|e] t];
        [destruct (bool_decide (st = Some (js "ACTIVE"))) | ];
        cbn; congruence.
    + unfold checkS3Bucket.
      destruct (headBucket w call r region) as [[[]|e] t]; cbn; congruence.
    + unfold checkSQSQueue.
      destruct (getQueueAttributes w call r region) as [[[]|e] t]; cbn;
        congruence.
Qed.

(** X18: a healthy status never carries an error and always carries a
    response time; a status without a response time is an unhealthy one,
    and it always carries an error text. *)
Theorem checkDependency_status_invariant
    (w : World) (call : nat) (dep : HealthCheckDependency) (region : jsstring) :
  let s := checkDependency w call dep region in
  (dep_status s = dep_healthy ->
     dep_error s = None /\ exists t, dep_responseTime s = Some t) /\
  (dep_responseTime s = None ->
     dep_status s = dep_unhealthy /\ exists message, dep_error s = Some message).
Proof.
  intros s. subst s. unfold checkDependency.
  destruct (probe w call dep region) as [result|e] eqn:Hp; cbn.
  - split; [ | discriminate].
    destruct (is_healthy result) eqn:Hh; [intros _ | discriminate].
    rewrite (probe_healthy_no_error w call dep region result Hp Hh).
    split; [reflexivity | now eexists].
  - split; [discriminate | ]. intros _. split; [reflexivity | now eexists].
Qed.

(** X19: a DynamoDB table that answers with a status other than ['ACTIVE']
    (['UPDATING'], say, or no status at all) is reported unhealthy, with the
    status in the error text and the measured response time. *)
Theorem checkDependency_table_not_active
    (w : World) (call : nat) (dep : HealthCheckDependency)
    (region tableName : jsstring) (tableStatus : option jsstring) (elapsed : Z) :
  check dep = None -> type dep = dynamodb ->
  usable (resource dep) = Some tableName ->
  describeTable w call tableName region = (Resolves tableStatus, elapsed) ->
  tableStatus <> Some (js "ACTIVE") ->
  checkDependency w call dep region =
  {| dep_name := name dep;
     dep_type := type dep;
     dep_status := dep_unhealthy;
     dep_resource := resource dep;
     dep_error :=
       Some (js "Table status: " ++ default (js "undefined") tableStatus);
     dep_responseTime := Some elapsed |}.
Proof.
  intros Hc Ht Hr Hq Hs. unfold checkDependency, probe.
  rewrite Hc, Ht, Hr. unfold checkDynamoDBTable. rewrite Hq.
  rewrite bool_decide_eq_false_2 by exact Hs. reflexivity.
Qed.

(** X20: when the request of a DynamoDB, S3 or SQS probe is rejected, the
    dependency is unhealthy, the response time is still reported, and the
    error is the message of the [Error] (['Unknown error'] for a thrown
    value that is no [Error]); an empty message leaves the error field
    out. *)
Theorem checkDependency_request_rejected
    (w : World) (call : nat) (dep : HealthCheckDependency)
    (region r : jsstring) (e : thrown) (elapsed : Z) :
  check dep = None ->
  usable (resource dep) = Some r ->
  (type dep = dynamodb /\ describeTable w call r region = (Rejects e, elapsed)) \/
  (type dep = s3 /\ headBucket w call r region = (Rejects e, elapsed)) \/
  (type dep = sqs /\ getQueueAttributes w call r region = (Rejects e, elapsed)) ->
  checkDependency w call dep region =
  {| dep_name := name dep;
     dep_type := type dep;
     dep_status := dep_unhealthy;
     dep_resource := resource dep;
     dep_error := if is_empty (messageOf e) then None else Some (messageOf e);
     dep_responseTime := Some elapsed |}.
Proof.
  intros Hc Hr H. unfold checkDependency, probe. rewrite Hc, Hr.
  destruct H as [[Ht Hq] | [[Ht Hq] | [Ht Hq]]]; rewrite Ht;
    unfold checkDynamoDBTable, checkS3Bucket, checkSQSQueue; rewrite Hq;
    reflexivity.
Qed.

End HealthFacts.

(** ** The further properties at concrete inputs *)

Section MoreWitnesses.
Import JsString PathNormalization Authorize.

Lemma extractApiVersion_after_normalizeApiPath_witness :
  extractApiVersion
    (normalizeApiPath (js "/nightingale/v2/mix/jobs") (js "nightingale"))
    = Some (js "v2") /\
  isValidApiVersion
    (normalizeApiPath (js "/nightingale/v2/mix/jobs") (js "nightingale")) None
    = false.
Proof.
  apply (extractApiVersion_after_normalizeApiPath
           (js "nightingale") (js "2") (js "mix/jobs") None).
  - discriminate.
  - discriminate.
  - repeat constructor.
Defined.

Lemma isValidApiVersion_two_versions_witness :
  extractApiVersion (js "/health") = None.
Proof.
  apply (isValidApiVersion_two_versions (js "/health") (js "v1") (js "v2"));
    [reflexivity | reflexivity | discriminate].
Defined.

Lemma getSecretValue_null_or_truthy_witness :
  getSecretValue
    (fun _ => Returns {| SecretString := Some (js "text") |})
    (fun _ => Returns (VObject [(js "KEY", VString [])]))
    noBuiltin (js "/some/secret") (js "KEY")
  = Returns VNull.
Proof.
  destruct (getSecretValue_null_or_truthy
              (fun _ => Returns {| SecretString := Some (js "text") |})
              (fun _ => Returns (VObject [(js "KEY", VString [])]))
              noBuiltin (js "/some/secret") (js "KEY")) as [_ H].
  apply (H {| SecretString := Some (js "text") |} (js "text")
           (VObject [(js "KEY", VString [])]) (VString []));
    try reflexivity.
  discriminate.
Defined.

Lemma getSecretValue_found_witness :
  getSecretValue mockSend parseMockSecret noBuiltin
    (js "/aviary/shared/api-key") (js "AVIARY_SHARED_API_KEY")
  = Returns (VString (js "valid-shared-key-12345")).
Proof.
  apply (getSecretValue_found mockSend parseMockSecret noBuiltin
           (js "/aviary/shared/api-key") (js "AVIARY_SHARED_API_KEY")
           mockSecretText (js "valid-shared-key-12345")
           {| SecretString := Some mockSecretText |}
           [(js "AVIARY_SHARED_API_KEY", VString (js "valid-shared-key-12345"))]).
  - vm_compute. reflexivity.
  - reflexivity.
  - vm_compute. discriminate.
  - vm_compute. reflexivity.
  - vm_compute. reflexivity.
  - vm_compute. discriminate.
Defined.

Lemma getSecretValue_failure_is_null_witness :
  getSecretValue mockSend parseMockSecret noBuiltin
    (js "/invalid/secret/path") (js "AVIARY_SHARED_API_KEY")
  = Returns VNull.
Proof.
  destruct (getSecretValue_failure_is_null mockSend parseMockSecret noBuiltin
              (js "/invalid/secret/path") (js "AVIARY_SHARED_API_KEY"))
    as [H _].
  apply H. eexists. vm_compute. reflexivity.
Defined.

Lemma authorizeRequest_untrimmed_secret_witness :
  authorizeRequest
    (fun _ => Returns {| SecretString := Some (js "text") |})
    (fun _ => Returns (VObject [(js "AVIARY_SHARED_API_KEY",
                                 VString (js "secret-key "))]))
    noBuiltin
    (eventWith [(js "X-API-Key", js "secret-key ")])
    (js "/some/secret") None
  = Returns denied.
Proof.
  apply (authorizeRequest_untrimmed_secret _ _ _ _ _ (js "secret-key ")).
  - vm_compute. reflexivity.
  - vm_compute. discriminate.
Defined.

Lemma authorizeRequest_trim_invariant_witness :
  authorizeRequest mockSend parseMockSecret noBuiltin
    (eventWith [(js "X-API-Key", js "  valid-shared-key-12345  ")])
    (js "/aviary/shared/api-key") None
  = authorizeRequest mockSend parseMockSecret noBuiltin
      (eventWith [(js "x-api-key", js "valid-shared-key-12345")])
      (js "/aviary/shared/api-key") None.
Proof.
  apply (authorizeRequest_trim_invariant mockSend parseMockSecret noBuiltin
           _ _ (js "  valid-shared-key-12345  ") (js "valid-shared-key-12345")).
  - vm_compute. reflexivity.
  - vm_compute. reflexivity.
  - vm_compute. reflexivity.
Defined.

Lemma authorizeRequest_upper_header_decides_witness :
  authorizeRequest mockSend parseMockSecret noBuiltin
    (eventWith [(js "X-API-Key", js "   ");
                (js "x-api-key", js "valid-shared-key-12345")])
    (js "/aviary/shared/api-key") None
  = Returns denied.
Proof.
  destruct (authorizeRequest_upper_header_decides
              mockSend parseMockSecret noBuiltin
              (eventWith [(js "X-API-Key", js "   ");
                          (js "x-api-key", js "valid-shared-key-12345")])
              (js "   ") (js "/aviary/shared/api-key") None) as [_ H].
  - vm_compute. reflexivity.
  - discriminate.
  - apply H. repeat constructor.
Defined.

Lemma authorizeRequest_empty_upper_header_falls_back_witness :
  authorizeRequest mockSend parseMockSecret noBuiltin
    (eventWith [(js "X-API-Key", []);
                (js "x-api-key", js "valid-shared-key-12345")])
    (js "/aviary/shared/api-key") None
  = authorizeRequest mockSend parseMockSecret noBuiltin
      (eventWith [(js "x-api-key", js "valid-shared-key-12345")])
      (js "/aviary/shared/api-key") None.
Proof.
  apply authorizeRequest_empty_upper_header_falls_back;
    vm_compute; reflexivity.
Defined.

End MoreWitnesses.

Section HealthWitnesses.
Import JsString Health.

Lemma healthResponse_status_witness :
  status
    (healthResponse
       (configWith (Some [customDependency "cache" (Resolves true);
                          dependencyOn "jobs" dynamodb None]))
       (worldWith (Resolves (Some (js "ACTIVE"))) (Resolves tt) (Resolves tt)))
  = degraded.
Proof.
  destruct (healthResponse_status
              (configWith (Some [customDependency "cache" (Resolves true);
                                 dependencyOn "jobs" dynamodb None]))
              (worldWith (Resolves (Some (js "ACTIVE"))) (Resolves tt)
                 (Resolves tt))
              [customDependency "cache" (Resolves true);
               dependencyOn "jobs" dynamodb None])
    as (_ & _ & H); [reflexivity | discriminate | ].
  apply H. split.
  - exists 1%nat, (dependencyOn "jobs" dynamodb None). split; reflexivity.
  - exists 0%nat, (customDependency "cache" (Resolves true)). split; reflexivity.
Defined.

Lemma checkDependency_invalid_configuration_witness :
  dep_error
    (checkDependency
       (worldWith (Resolves (Some (js "ACTIVE"))) (Resolves tt) (Resolves tt))
       0 (dependencyOn "jobs" dynamodb (Some [])) (js "us-east-1"))
  = Some (js "Invalid dependency configuration: jobs").
Proof.
  rewrite (checkDependency_invalid_configuration
             (worldWith (Resolves (Some (js "ACTIVE"))) (Resolves tt)
                (Resolves tt))
             0 (dependencyOn "jobs" dynamodb (Some [])) (js "us-east-1")).
  - reflexivity.
  - reflexivity.
  - right; right. reflexivity.
Defined.

Lemma checkDependency_custom_check_only_witness :
  dep_status
    (checkDependency
       (worldWith (Rejects OtherValue) (Rejects OtherValue) (Rejects OtherValue))
       0 {| name := js "jobs"; type := dynamodb; resource := Some (js "jobs");
            check := Some (Resolves true, 3%Z) |}
       (js "us-east-1"))
  = dep_healthy.
Proof.
  destruct (checkDependency_custom_check_only
              (worldWith (Rejects OtherValue) (Rejects OtherValue)
                 (Rejects OtherValue))
              (worldWith (Resolves None) (Resolves tt) (Resolves tt))
              0 1
              {| name := js "jobs"; type := dynamodb;
                 resource := Some (js "jobs");
                 check := Some (Resolves true, 3%Z) |}
              (js "us-east-1") (js "eu-west-1") (Resolves true) 3%Z)
    as [_ H]; [reflexivity | ].
  apply H. reflexivity.
Defined.

Lemma checkDependency_status_invariant_witness :
  dep_error
    (checkDependency
       (worldWith (Resolves (Some (js "ACTIVE"))) (Resolves tt) (Resolves tt))
       0 (dependencyOn "assets" s3 (Some (js "assets-bucket")))
       (js "us-east-1"))
  = None.
Proof.
  destruct (checkDependency_status_invariant
              (worldWith (Resolves (Some (js "ACTIVE"))) (Resolves tt)
                 (Resolves tt))
              0 (dependencyOn "assets" s3 (Some (js "assets-bucket")))
              (js "us-east-1")) as [H _].
  apply H. reflexivity.
Defined.

Lemma checkDependency_table_not_active_witness :
  dep_error
    (checkDependency
       (worldWith (Resolves (Some (js "UPDATING"))) (Resolves tt) (Resolves tt))
       0 (dependencyOn "jobs" dynamodb (Some (js "condor-jobs")))
       (js "us-east-1"))
  = Some (js "Table status: UPDATING").
Proof.
  rewrite (checkDependency_table_not_active
             (worldWith (Resolves (Some (js "UPDATING"))) (Resolves tt)
                (Resolves tt))
             0 (dependencyOn "jobs" dynamodb (Some (js "condor-jobs")))
             (js "us-east-1") (js "condor-jobs") (Some (js "UPDATING")) 12%Z);
    try reflexivity.
  discriminate.
Defined.

Lemma checkDependency_request_rejected_witness :
  checkDependency
    (worldWith (Resolves None) (Resolves tt) (Rejects OtherValue))
    2 (dependencyOn "work" sqs (Some (js "https://sqs/queue")))
    (js "us-east-1")
  = {| dep_name := js "work";
       dep_type := sqs;
       dep_status := dep_unhealthy;
       dep_resource := Some (js "https://sqs/queue");
       dep_error := Some (js "Unknown error");
       dep_responseTime := Some 9%Z |}.
Proof.
  rewrite (checkDependency_request_rejected
             (worldWith (Resolves None) (Resolves tt) (Rejects OtherValue))
             2 (dependencyOn "work" sqs (Some (js "https://sqs/queue")))
             (js "us-east-1") (js "https://sqs/queue") OtherValue 9%Z).
  - reflexivity.
  - reflexivity.
  - reflexivity.
  - right; right. split; reflexivity.
Defined.

End HealthWitnesses.
